(** * The consumption pipeline of paperless ([src/documents/consumer.py])

    A shallow embedding of the [Consumer] class: the methods are programs of
    a state-and-exception monad over an explicit model of what the Python
    code acts on (the filesystem, the [Document] table, the consumer's own
    attributes) together with a trace of every outward effect, in order. *)

From Stdlib.Strings Require Import Byte.
From stdpp Require Import base numbers strings list gmap fin_maps.
From Stdlib Require Import Sorted.

Open Scope Z_scope.

(** ** Data *)

(** A path is kept split the way [os.path.split] returns it: the directory
    and the base name. *)
Abbreviation Path := (string * string)%type.
Abbreviation Bytes := (list Byte.byte).

(** [Tag] rows are referred to by their slug. *)
Abbreviation Tag := string.

(** Exceptions the code raises, catches or lets through. *)
Inductive Exn :=
| ParseError (msg : string)
| ConsumerError (msg : string)
| FileNotFoundError (p : Path)
| FileExistsError (d : string)
| OtherError (name : string).

Definition is_ParseError (e : Exn) : bool :=
  match e with ParseError _ => true | _ => false end.

Definition is_ConsumerError (e : Exn) : bool :=
  match e with ConsumerError _ => true | _ => false end.

Inductive Result (A : Type) :=
| Ok (a : A)
| Raise (e : Exn).
Arguments Ok {A} a.
Arguments Raise {A} e.

(** [models.FileInfo]: what a file name says about a document. *)
Module FileInfo.
Record t := mk {
  created : option Z;
  correspondent : option string;
  title : string;
  extension : string;
  tags : list Tag
}.
End FileInfo.

(** [models.Document]: a row of the document table. *)
Module Document.
Record t := mk {
  pk : nat;
  correspondent : option string;
  title : string;
  content : string;
  file_type : string;
  checksum : string;
  created : Z;
  modified : Z
}.
End Document.

(** What a parser class offers once it is instantiated on a file.  The
    parsers are external: each operation is given by its outcome on the
    file, a value or a raised exception. *)
Record ParserClass := {
  parser_name : string;
  get_thumbnail : Path -> Result Path;
  get_date : Path -> Result (option Z);
  get_text : Path -> Result string
}.

(** The dict a consumer declaration answers with when it accepts a file:
    [{"parser": ..., "weight": ...}]. *)
Record ParserOption := {
  parser : ParserClass;
  weight : Z
}.

(** A registered declaration: called on a path, it declines ([None]) or
    accepts. *)
Abbreviation Declaration := (Path -> option ParserOption).

Record File := {
  f_content : Bytes;
  f_mtime : Z
}.

Inductive Level := Debug | Info | Error.

(** The log messages of the class, with the arguments of their [format]. *)
Inductive LogMsg :=
| MsgSkippingDuplicate (doc : Path)
| MsgNoParsers (doc : Path)
| MsgConsuming (doc : Path)
| MsgParseFailure (doc : Path) (e : string)
| MsgFinished (document : Document.t)
| MsgParsersAvailable (names : list string)
| MsgSavingRecord
| MsgTagging (slugs : list Tag)
| MsgEncryptingDocument
| MsgEncryptingThumbnail
| MsgCompleted
| MsgDeleting (doc : Path).

Inductive ParserOp := OpInit | OpThumbnail | OpDate | OpText | OpCleanup.

(** Every outward effect of the class, recorded in the order it happens. *)
Inductive Event :=
| EvLog (level : Level) (group : option nat) (msg : LogMsg)
| EvStarted (filename : Path) (group : option nat)
| EvFinished (document : Document.t) (group : option nat)
| EvParser (name : string) (op : ParserOp) (doc : Path)
| EvDbCreate (document : Document.t)
| EvTagsAdd (pk : nat) (tags : list Tag)
| EvOpenWrite (p : Path)
| EvWrite (p : Path) (data : Bytes)
| EvUnlink (p : Path)
| EvMakeDir (d : string)
| EvSleep (duration : Z).

(** The state the methods run in: the filesystem, the database, the trace,
    and the mutable attributes of the consumer ([_ignore], [logging_group]). *)
Record State := mkState {
  files : gmap Path File;
  dirs : gset string;
  documents : list Document.t;
  document_tags : gmap nat (gset Tag);
  trace : list Event;
  now : Z;
  uuid_supply : nat;
  _ignore : list Path;
  logging_group : option nat
}.

Definition set_files (f : gmap Path File -> gmap Path File) (s : State) : State :=
  mkState (f (files s)) (dirs s) (documents s) (document_tags s) (trace s)
          (now s) (uuid_supply s) (_ignore s) (logging_group s).
Definition set_dirs (f : gset string -> gset string) (s : State) : State :=
  mkState (files s) (f (dirs s)) (documents s) (document_tags s) (trace s)
          (now s) (uuid_supply s) (_ignore s) (logging_group s).
Definition set_documents (f : list Document.t -> list Document.t) (s : State) : State :=
  mkState (files s) (dirs s) (f (documents s)) (document_tags s) (trace s)
          (now s) (uuid_supply s) (_ignore s) (logging_group s).
Definition set_document_tags
    (f : gmap nat (gset Tag) -> gmap nat (gset Tag)) (s : State) : State :=
  mkState (files s) (dirs s) (documents s) (f (document_tags s)) (trace s)
          (now s) (uuid_supply s) (_ignore s) (logging_group s).
Definition set_trace (f : list Event -> list Event) (s : State) : State :=
  mkState (files s) (dirs s) (documents s) (document_tags s) (f (trace s))
          (now s) (uuid_supply s) (_ignore s) (logging_group s).
Definition set_now (f : Z -> Z) (s : State) : State :=
  mkState (files s) (dirs s) (documents s) (document_tags s) (trace s)
          (f (now s)) (uuid_supply s) (_ignore s) (logging_group s).
Definition set_uuid_supply (f : nat -> nat) (s : State) : State :=
  mkState (files s) (dirs s) (documents s) (document_tags s) (trace s)
          (now s) (f (uuid_supply s)) (_ignore s) (logging_group s).
Definition set_ignore (f : list Path -> list Path) (s : State) : State :=
  mkState (files s) (dirs s) (documents s) (document_tags s) (trace s)
          (now s) (uuid_supply s) (f (_ignore s)) (logging_group s).
Definition set_logging_group (f : option nat -> option nat) (s : State) : State :=
  mkState (files s) (dirs s) (documents s) (document_tags s) (trace s)
          (now s) (uuid_supply s) (_ignore s) (f (logging_group s)).

(** ** The monad: state passing with exceptions *)

Definition M (A : Type) : Type := State -> Result A * State.

#[global] Instance M_ret : MRet M := λ A a s, (Ok a, s).
#[global] Instance M_bind : MBind M := λ A B k m s,
  match m s with
  | (Ok a, s') => k a s'
  | (Raise e, s') => (Raise e, s')
  end.

Definition raise {A} (e : Exn) : M A := λ s, (Raise e, s).
Definition lift {A} (r : Result A) : M A := λ s, (r, s).
Definition get : M State := λ s, (Ok s, s).
Definition modify (f : State -> State) : M unit := λ s, (Ok tt, f s).
Definition emit (e : Event) : M unit := modify (set_trace (λ t, t ++ [e])).

(** [try: body / except ParseError as e: handler / else: orelse].  Only
    [ParseError] is caught, and only when [body] raises it. *)
Definition try_except_ParseError {A B}
    (body : M A) (handler : string -> M B) (orelse : A -> M B) : M B := λ s,
  match body s with
  | (Ok a, s') => orelse a s'
  | (Raise (ParseError msg), s') => handler msg s'
  | (Raise e, s') => (Raise e, s')
  end.

(** ** External collaborators

    Everything the module imports and calls but does not define: the hash,
    the file-name grammar of [models.FileInfo], the tag matcher, the
    encryption, the artifact paths of a [Document], the receivers of the
    [document_consumer_declaration] signal, and what the rest of the system
    does to the files while a pass sleeps.  The two calls that take a path
    name as the user wrote it in the settings, [os.path.exists] and
    [os.makedirs], are left to the operating system as well: how it reads
    the name (trailing slashes, missing ancestors, a regular file of that
    name) is its business; all that is fixed is that they look at the files
    and directories, and that [os.makedirs] creates directories only, or
    raises.  The conversion of a modification time into an aware datetime
    may raise. *)
Record Env := {
  md5_hexdigest : Bytes -> string;
  title_regex_match : Path -> bool;
  from_path : Path -> Result FileInfo.t;
  match_all : string -> list Tag;
  encrypted : Bytes -> Result Bytes;
  source_path : Document.t -> Path;
  thumbnail_path : Document.t -> Path;
  make_aware_fromtimestamp : Z -> Result Z;
  declaration_responses : list Declaration;
  during_sleep : gmap Path File -> gmap Path File;
  os_path_exists : gmap Path File -> gset string -> string -> bool;
  os_makedirs : gmap Path File -> gset string -> string -> Result (gset string)
}.

(** The attributes of a constructed consumer that never change. *)
Record Consumer := {
  consume : string;
  scratch : string;
  parsers : list Declaration
}.

(** [FILES_MIN_UNMODIFIED_DURATION = 0.5] seconds, in milliseconds. *)
Definition FILES_MIN_UNMODIFIED_DURATION : Z := 500.

(** ** Sorting, as [sorted(l, key=..., reverse=...)] does it: stable in both
    directions. *)

Section Sorted.
Context {A : Type} (key : A -> Z).

(** [x] stood before every element of [l]: it goes in front of the first
    element it does not have to follow. *)
Fixpoint insert_sorted (reverse : bool) (x : A) (l : list A) : list A :=
  match l with
  | [] => [x]
  | y :: l' =>
      if (if reverse then key x <? key y else key y <? key x)
      then y :: insert_sorted reverse x l'
      else x :: y :: l'
  end.

Definition sorted (reverse : bool) (l : list A) : list A :=
  foldr (insert_sorted reverse) [] l.
End Sorted.

(** ** Python's [or] on values that may be [None]

    [x or y] is [x] unless [x] is [None] (a [datetime] is never falsy). *)

Definition or_ {A} (x y : option A) : option A :=
  match x with Some _ => x | None => y end.

Arguments or_ : simpl never.

(** ** System calls and library calls *)

Definition log (level : Level) (msg : LogMsg) : M unit :=
  s ← get; emit (EvLog level (logging_group s) msg).

(** [open(p, "rb").read()] *)
Definition read_file (p : Path) : M Bytes :=
  s ← get;
  match files s !! p with
  | Some f => mret (f_content f)
  | None => raise (FileNotFoundError p)
  end.

(** [os.stat(p)] *)
Definition os_stat (p : Path) : M File :=
  s ← get;
  match files s !! p with
  | Some f => mret f
  | None => raise (FileNotFoundError p)
  end.

(** [os.path.getmtime(p)] *)
Definition getmtime (p : Path) : M Z :=
  f ← os_stat p; mret (f_mtime f).

(** [open(p, "wb")]: the file is created, or emptied, in an existing
    directory. *)
Definition open_wb (p : Path) : M unit :=
  s ← get;
  if decide (p.1 ∈ dirs s) then
    modify (set_files (insert p {| f_content := []; f_mtime := now s |}));;
    emit (EvOpenWrite p)
  else raise (FileNotFoundError p).

(** [handle.write(data)] on a file opened by [open_wb]. *)
Definition write (p : Path) (data : Bytes) : M unit :=
  s ← get;
  modify (set_files (insert p {| f_content := data; f_mtime := now s |}));;
  emit (EvWrite p data).

(** [os.unlink(p)] *)
Definition unlink (p : Path) : M unit :=
  s ← get;
  match files s !! p with
  | Some _ => modify (set_files (delete p));; emit (EvUnlink p)
  | None => raise (FileNotFoundError p)
  end.

(** [os.makedirs(d)]: the directories there are afterwards, or the error
    raised, are the operating system's answer. *)
Definition makedirs (env : Env) (d : string) : M unit :=
  s ← get;
  match os_makedirs env (files s) (dirs s) d with
  | Ok ds => modify (set_dirs (λ _, ds));; emit (EvMakeDir d)
  | Raise e => raise e
  end.

(** [uuid.uuid4()]: a value not handed out before. *)
Definition uuid4 : M nat :=
  s ← get; modify (set_uuid_supply S);; mret (uuid_supply s).

(** [os.scandir(d)], keeping the regular files: their paths and stats. *)
Definition scandir (d : string) : M (list (Path * File)) :=
  s ← get;
  if decide (d ∈ dirs s)
  then mret (filter (λ e, e.1.1 = d) (map_to_list (files s)))
  else raise (FileNotFoundError (d, "")).

(** [Document.objects.filter(checksum=c).exists()] *)
Definition checksum_exists (c : string) (s : State) : bool :=
  bool_decide (Exists (λ d, Document.checksum d = c) (documents s)).

(** [Document.objects.create(...)]: the row gets a primary key no other row
    has. *)
Definition objects_create (correspondent : option string) (title content
    file_type checksum : string) (created modified : Z) : M Document.t :=
  s ← get;
  let document :=
    Document.mk (S (max_list (Document.pk <$> documents s)))
      correspondent title content file_type checksum created modified in
  modify (set_documents (λ ds, ds ++ [document]));;
  emit (EvDbCreate document);;
  mret document.

(** [document.tags.add( *tags )] *)
Definition tags_add (document : Document.t) (tags : gset Tag) : M unit :=
  modify (set_document_tags (λ m,
    <[Document.pk document := tags ∪ default ∅ (m !! Document.pk document)]> m));;
  emit (EvTagsAdd (Document.pk document) (elements tags)).

(** A call of a method of the instantiated parser. *)
Definition call_parser {A} (pc : ParserClass) (op : ParserOp) (doc : Path)
    (outcome : Result A) : M A :=
  emit (EvParser (parser_name pc) op doc);; lift outcome.

(** ** The [Consumer] class *)

Section Consumer.
Context (env : Env).

(** [make_dirs( *dirs )] *)
Fixpoint make_dirs (ds : list string) : M unit := λ s,
  match ds with
  | [] => (Ok tt, s)
  | d :: ds' =>
      match makedirs env d s with
      | (Ok _, s') => make_dirs ds' s'
      | (Raise (FileExistsError _), s') => make_dirs ds' s'
      | (Raise e, s') => (Raise e, s')
      end
  end.

(** [Consumer.__init__].  [consume] is the [CONSUMPTION_DIR] setting,
    [None] when the setting is absent. *)
Definition __init__ (consume : option string) (scratch : string) : M Consumer :=
  modify (set_logging_group (λ _, None));;
  modify (set_ignore (λ _, []));;
  make_dirs [scratch];;
  match consume with
  | None | Some "" =>
      raise (ConsumerError
        "The CONSUMPTION_DIR settings variable does not appear to be set.")
  | Some dir =>
      s ← get;
      if os_path_exists env (files s) (dirs s) dir then
        let parsers := foldl (λ acc response, acc ++ [response]) []
                             (declaration_responses env) in
        match parsers with
        | [] =>
            raise (ConsumerError
              "No parsers could be found, not even the default.  This is a problem.")
        | _ => mret {| consume := dir; scratch := scratch; parsers := parsers |}
        end
      else
        raise (ConsumerError ("Consumption directory " +:+ dir +:+ " does not exist"))
  end.

(** [Consumer._is_duplicate] *)
Definition _is_duplicate (doc : Path) : M bool :=
  data ← read_file doc;
  let checksum := md5_hexdigest env data in
  s ← get;
  mret (checksum_exists checksum s).

(** The loop of [_get_parser_class] that asks every parser. *)
Fixpoint collect_options (ps : list Declaration) (doc : Path)
    (options : list ParserOption) : list ParserOption :=
  match ps with
  | [] => options
  | p :: ps' =>
      match p doc with
      | Some result => collect_options ps' doc (options ++ [result])
      | None => collect_options ps' doc options
      end
  end.

(** [Consumer._get_parser_class] *)
Definition _get_parser_class (self : Consumer) (doc : Path)
    : M (option ParserClass) :=
  let options := collect_options (parsers self) doc [] in
  log Info (MsgParsersAvailable ((λ o, parser_name (parser o)) <$> options));;
  match options with
  | [] => mret None
  | _ =>
      (* Return the parser with the highest weight. *)
      match sorted weight true options with
      | best :: _ => mret (Some (parser best))
      | [] => raise (OtherError "IndexError")
      end
  end.

(** [Consumer._store] *)
Definition _store (text : string) (doc thumbnail : Path) (date : option Z)
    : M Document.t :=
  file_info ← lift (from_path env doc);
  stats ← os_stat doc;
  log Debug MsgSavingRecord;;
  created ←
    match or_ (FileInfo.created file_info) date with
    | Some created => mret created
    | None => lift (make_aware_fromtimestamp env (f_mtime stats))
    end;
  data ← read_file doc;
  document ← objects_create
    (FileInfo.correspondent file_info)
    (FileInfo.title file_info)
    text
    (FileInfo.extension file_info)
    (md5_hexdigest env data)
    created
    created;
  let relevant_tags : gset Tag :=
    list_to_set (match_all env text ++ FileInfo.tags file_info) in
  (if decide (relevant_tags = ∅) then mret tt
   else log Debug (MsgTagging (elements relevant_tags));;
        tags_add document relevant_tags);;
  (* Encrypt and store the actual document *)
  read_file doc;;
  open_wb (source_path env document);;
  log Debug MsgEncryptingDocument;;
  unencrypted ← read_file doc;
  ciphertext ← lift (encrypted env unencrypted);
  write (source_path env document) ciphertext;;
  (* Encrypt and store the thumbnail *)
  read_file thumbnail;;
  open_wb (thumbnail_path env document);;
  log Debug MsgEncryptingThumbnail;;
  unencrypted ← read_file thumbnail;
  ciphertext ← lift (encrypted env unencrypted);
  write (thumbnail_path env document) ciphertext;;
  log Info MsgCompleted;;
  mret document.

(** [Consumer._cleanup_doc] *)
Definition _cleanup_doc (doc : Path) : M unit :=
  log Debug (MsgDeleting doc);;
  unlink doc.

(** [Consumer.try_consume_file]: returns [True] if the file was consumed. *)
Definition try_consume_file (self : Consumer) (file : Path) : M bool :=
  if negb (title_regex_match env file) then mret false else
  let doc := file in
  duplicate ← _is_duplicate doc;
  if duplicate : bool then
    log Info (MsgSkippingDuplicate doc);;
    mret false
  else
  parser_class ← _get_parser_class self doc;
  match parser_class with
  | None =>
      log Error (MsgNoParsers doc);;
      mret false
  | Some parser_class =>
      group ← uuid4;
      modify (set_logging_group (λ _, Some group));;
      log Info (MsgConsuming doc);;
      emit (EvStarted doc (Some group));;
      call_parser parser_class OpInit doc (Ok tt);;
      try_except_ParseError
        (thumbnail ← call_parser parser_class OpThumbnail doc
                       (get_thumbnail parser_class doc);
         date ← call_parser parser_class OpDate doc (get_date parser_class doc);
         text ← call_parser parser_class OpText doc (get_text parser_class doc);
         _store text doc thumbnail date)
        (λ e,
           log Error (MsgParseFailure doc e);;
           call_parser parser_class OpCleanup doc (Ok tt);;
           mret false)
        (λ document,
           call_parser parser_class OpCleanup doc (Ok tt);;
           _cleanup_doc doc;;
           log Info (MsgFinished document);;
           s ← get;
           emit (EvFinished document (logging_group s));;
           mret true)
  end.

(** [time.sleep(d)]: time passes and the rest of the system goes on
    writing to the files. *)
Definition sleep (d : Z) : M unit :=
  emit (EvSleep d);;
  modify (set_now (λ t, t + d));;
  modify (set_files (during_sleep env)).

(** The body of the loop of [consume_new_files], for one scanned entry. *)
Definition consume_entry (self : Consumer) (entry : Path * Z) : M unit :=
  let '(file, mtime) := entry in
  current ← getmtime file;
  if decide (mtime = current) then
    consumed ← try_consume_file self file;
    if consumed : bool then mret tt
    else modify (set_ignore (λ l, l ++ [file]))
  else mret tt.

(** [for file, mtime in files_old_to_new: ...] *)
Fixpoint consume_entries (self : Consumer) (entries : list (Path * Z)) : M unit :=
  match entries with
  | [] => mret tt
  | entry :: rest => consume_entry self entry;; consume_entries self rest
  end.

(** The first loop of [consume_new_files]: the regular files of the
    directory that are not ignored, with their modification times. *)
Definition scan (self : Consumer) : M (list (Path * Z)) :=
  entries ← scandir (consume self);
  s ← get;
  mret ((λ e, (e.1, f_mtime e.2)) <$>
          filter (λ e, e.1 ∉ _ignore s) entries).

(** [Consumer.consume_new_files] *)
Definition consume_new_files (self : Consumer) : M unit :=
  files ← scan self;
  match files with
  | [] => mret tt
  | _ =>
      let files_old_to_new := sorted snd false files in
      sleep FILES_MIN_UNMODIFIED_DURATION;;
      consume_entries self files_old_to_new
  end.

End Consumer.

(** ** Vocabulary of the properties *)

Section FrontAfter.
Context {A : Type} (key : A -> Z).

(** The element that ends up in front when [x] is put before a list whose
    front element is [front]. *)
Definition front_after (reverse : bool) (x : A) (front : option A) : A :=
  match front with
  | None => x
  | Some y =>
      if (if reverse then key x <? key y else key y <? key x) then y else x
  end.
End FrontAfter.

(** What [_get_parser_class] returns, as a function of the answers of the
    registered declarations alone. *)
Definition selection (answers : list (option ParserOption)) : option ParserClass :=
  parser <$> head (sorted weight true (omap id answers)).

(** The number of events of a trace that satisfy a test. *)
Definition count_events (test : Event → bool) (t : list Event) : nat :=
  length (List.filter test t).

Definition is_cleanup_call (e : Event) : bool :=
  match e with EvParser _ OpCleanup _ => true | _ => false end.

Definition is_notification (e : Event) : bool :=
  match e with EvStarted _ _ | EvFinished _ _ => true | _ => false end.

Definition is_unlink (e : Event) : bool :=
  match e with EvUnlink _ => true | _ => false end.

(** The three extraction calls of [try_consume_file], in the order the code
    makes them: the first one that raises decides the outcome. *)
Definition extraction (pc : ParserClass) (doc : Path)
    : Result (Path * option Z * string) :=
  match get_thumbnail pc doc with
  | Raise e => Raise e
  | Ok thumbnail =>
      match get_date pc doc with
      | Raise e => Raise e
      | Ok date =>
          match get_text pc doc with
          | Raise e => Raise e
          | Ok text => Ok (thumbnail, date, text)
          end
      end
  end.

(** The state in which the store step of an attempt runs, when the attempt
    started in [s] and chose the parser [pc]: a fresh logging group is set
    and the trace has the lines and calls of the attempt so far. *)
Definition state_at_store (self : Consumer) (pc : ParserClass) (file : Path)
    (s : State) : State :=
  let group := Some (uuid_supply s) in
  set_trace (λ t, t ++
      [EvLog Info (logging_group s)
         (MsgParsersAvailable
            ((λ o, parser_name (parser o)) <$> omap (λ p, p file) (parsers self)));
       EvLog Info group (MsgConsuming file);
       EvStarted file group;
       EvParser (parser_name pc) OpInit file;
       EvParser (parser_name pc) OpThumbnail file;
       EvParser (parser_name pc) OpDate file;
       EvParser (parser_name pc) OpText file])
    (set_logging_group (λ _, group) (set_uuid_supply S s)).

(** The files once [p] has been opened for writing at time [t], and once
    [data] has been written to it. *)
Definition truncated (p : Path) (t : Z) (fs : gmap Path File) : gmap Path File :=
  <[p := {| f_content := []; f_mtime := t |}]> fs.

Definition holding (p : Path) (data : Bytes) (t : Z) (fs : gmap Path File)
    : gmap Path File :=
  <[p := {| f_content := data; f_mtime := t |}]> fs.

(** The timestamp the store step resolves for a new document:
    [file_info.created or date or make_aware(fromtimestamp(st_mtime))], the
    conversion being made only when it is needed. *)
Definition resolved_created (env : Env) (fi : FileInfo.t) (date : option Z)
    (f : File) : Result Z :=
  match or_ (FileInfo.created fi) date with
  | Some created => Ok created
  | None => make_aware_fromtimestamp env (f_mtime f)
  end.

(** The directories there are when the constructor checks the consumption
    directory, that is once [make_dirs] has dealt with the scratch
    directory; or the error that [make_dirs] lets through. *)
Definition dirs_at_check (env : Env) (scratch : string) (s : State)
    : Result (gset string) :=
  match os_makedirs env (files s) (dirs s) scratch with
  | Ok ds => Ok ds
  | Raise (FileExistsError _) => Ok (dirs s)
  | Raise e => Raise e
  end.

Definition is_FileExistsError (e : Exn) : bool :=
  match e with FileExistsError _ => true | _ => false end.

(** Kinds of events and of outcomes. *)

Definition is_store_event (e : Event) : bool :=
  match e with
  | EvLog _ _ _ | EvDbCreate _ | EvTagsAdd _ _ | EvOpenWrite _ | EvWrite _ _ => true
  | _ => false
  end.

Definition is_started (e : Event) : bool :=
  match e with EvStarted _ _ => true | _ => false end.

Definition is_finished (e : Event) : bool :=
  match e with EvFinished _ _ => true | _ => false end.

Definition is_parser_init (e : Event) : bool :=
  match e with EvParser _ OpInit _ => true | _ => false end.

Definition consumed (r : Result bool) : bool :=
  match r with Ok true => true | _ => false end.

Definition returned {A} (r : Result A) : bool :=
  match r with Ok _ => true | Raise _ => false end.


(** ** A concrete installation, to run the methods on *)

Module Demo.
Import Stdlib.Strings.Byte.

Definition pdf_parser : ParserClass := {|
  parser_name := "PdfDocumentParser";
  get_thumbnail := λ _, Ok ("/tmp/paperless", "thumb.png");
  get_date := λ _, Ok None;
  get_text := λ _, Ok "lorem ipsum"
|}.

(** A parser whose text extraction fails. *)
Definition broken_parser : ParserClass := {|
  parser_name := "BrokenParser";
  get_thumbnail := λ _, Ok ("/tmp/paperless", "thumb.png");
  get_date := λ _, Ok (Some 42);
  get_text := λ _, Raise (ParseError "tesseract failed")
|}.

Definition text_parser : ParserClass := {|
  parser_name := "TextDocumentParser";
  get_thumbnail := λ _, Ok ("/tmp/paperless", "thumb.png");
  get_date := λ _, Ok (Some 42);
  get_text := λ _, Ok "plain text"
|}.

(** Stands for the title pattern: the name has an extension. *)
Definition has_extension (file : Path) : bool :=
  match String.index 0 "." file.2 with
  | Some _ => true
  | None => false
  end.

Definition file_info (file : Path) : FileInfo.t :=
  FileInfo.mk None None file.2 "pdf" [].

Definition declare (pc : ParserClass) (w : Z) : Declaration :=
  λ file, if has_extension file then Some {| parser := pc; weight := w |} else None.

(** A reading of path names to run on: a name stands for its components
    (the names between slashes; empty ones and "." dropped, ".." taking back
    the one before it), a directory exists when it is one of [dirs] or lies
    above one of them or above a file, and [makedirs] refuses a name that
    exists or that has a regular file above it. *)
Definition slash : Ascii.ascii := Ascii.Ascii true true true true false true false false.

Fixpoint split_slash (p current : string) : list string :=
  match p with
  | EmptyString => [current]
  | String c rest =>
      if Ascii.eqb c slash then current :: split_slash rest ""
      else split_slash rest (current +:+ String c "")
  end.

Definition components (p : string) : bool * list string :=
  (match p with String c _ => Ascii.eqb c slash | EmptyString => false end,
   foldl (λ acc name,
            if bool_decide (name = "" ∨ name = ".") then acc
            else if bool_decide (name = "..") then removelast acc
            else acc ++ [name])
         [] (split_slash p "")).

Definition file_components (file : Path) : bool * list string :=
  components (file.1 +:+ "/" +:+ file.2).

(** [n] is [m] or lies above it. *)
Definition above (n m : bool * list string) : Prop :=
  n.1 = m.1 ∧ n.2 `prefix_of` m.2.

Definition posix_exists (fs : gmap Path File) (ds : gset string) (p : string)
    : bool :=
  bool_decide (p ≠ ""
    ∧ (components p = (true, [])
       ∨ set_Exists (λ d, above (components p) (components d)) ds
       ∨ map_Exists (λ file _, above (components p) (file_components file)) fs)).

Definition posix_makedirs (fs : gmap Path File) (ds : gset string) (p : string)
    : Result (gset string) :=
  if bool_decide (p = "") then Raise (FileNotFoundError (p, ""))
  else if posix_exists fs ds p then Raise (FileExistsError p)
  else if bool_decide
            (map_Exists (λ file _, above (file_components file) (components p)) fs)
  then Raise (OtherError "NotADirectoryError")
  else Ok ({[p]} ∪ ds).

(** An installation with the given registered declarations, encryption and
    activity while a pass sleeps. *)
Definition make_env (responses : list Declaration)
    (gpg : Bytes → Result Bytes)
    (activity : gmap Path File → gmap Path File) : Env := {|
  md5_hexdigest := String.string_of_list_byte;
  title_regex_match := has_extension;
  from_path := λ file, Ok (file_info file);
  match_all := λ _, [];
  encrypted := gpg;
  source_path := λ d, ("/media/originals", Document.checksum d +:+ ".gpg");
  thumbnail_path := λ d, ("/media/thumbnails", Document.checksum d +:+ ".png.gpg");
  make_aware_fromtimestamp := λ t, Ok t;
  declaration_responses := responses;
  during_sleep := activity;
  os_path_exists := posix_exists;
  os_makedirs := posix_makedirs
|}.

Definition gpg_up (data : Bytes) : Result Bytes := Ok (rev data).
Definition gpg_down (data : Bytes) : Result Bytes := Raise (OtherError "GPGError").

Definition env : Env := make_env [declare pdf_parser 5] gpg_up (λ fs, fs).
Definition env_gpg_down : Env := make_env [declare pdf_parser 5] gpg_down (λ fs, fs).

Definition consumer (ps : list Declaration) : Consumer := {|
  consume := "/consume";
  scratch := "/tmp/paperless";
  parsers := ps
|}.

Definition self : Consumer := consumer [declare pdf_parser 5].
Definition self_broken : Consumer := consumer [declare broken_parser 5].

Definition invoice : Path := ("/consume", "invoice.pdf").
Definition letter : Path := ("/consume", "letter.pdf").
Definition thumb : Path := ("/tmp/paperless", "thumb.png").

Definition invoice_file : File := {| f_content := [x61; x62]; f_mtime := 10 |}.
Definition letter_file : File := {| f_content := [x63]; f_mtime := 12 |}.

Definition initial : State := {|
  files := {[ invoice := invoice_file;
              thumb := {| f_content := [x74]; f_mtime := 11 |} ]};
  dirs := {[ "/consume"; "/tmp/paperless"; "/media/originals"; "/media/thumbnails" ]};
  documents := [];
  document_tags := ∅;
  trace := [];
  now := 100;
  uuid_supply := 0;
  _ignore := [];
  logging_group := None
|}.

(** The same bytes were consumed before. *)
Definition seen_before : Document.t :=
  Document.mk 1 None "invoice" "lorem ipsum" "pdf" "ab" 5 5.

(** The row the store step creates for the invoice. *)
Definition stored_invoice : Document.t :=
  Document.mk 1 None "invoice.pdf" "lorem ipsum" "pdf" "ab" 10 10.

Definition initial_seen : State := set_documents (λ _, [seen_before]) initial.

(** A second, younger file waits behind the invoice. *)
Definition initial_two : State := set_files (insert letter letter_file) initial.

(** While the pass sleeps, somebody is still writing the invoice. *)
Definition still_writing (fs : gmap Path File) : gmap Path File :=
  <[invoice := {| f_content := [x61; x62; x63]; f_mtime := 101 |}]> fs.

Definition env_still_writing : Env :=
  make_env [declare pdf_parser 5] gpg_up still_writing.
(** A copy of the invoice under another name. *)
Definition copy : Path := ("/consume", "copy.pdf").
Definition initial_copy : State := set_files (insert copy invoice_file) initial.

(** The invoice was put on the ignore list by an earlier pass. *)
Definition initial_ignored : State := set_ignore (λ _, [invoice]) initial.

(** While the pass sleeps, somebody takes the invoice away. *)
Definition env_taken_away : Env :=
  make_env [declare pdf_parser 5] gpg_up (delete invoice).

(** A consumer none of whose parsers takes any file. *)
Definition self_declining : Consumer := consumer [λ _, None].

(** An installation where the text and the file name both give tags. *)
Definition env_tagged : Env := {|
  md5_hexdigest := String.string_of_list_byte;
  title_regex_match := has_extension;
  from_path := λ file, Ok (FileInfo.mk None None file.2 "pdf" ["acme"; "2017"]);
  match_all := λ _, ["invoice"; "acme"];
  encrypted := gpg_up;
  source_path := λ d, ("/media/originals", Document.checksum d +:+ ".gpg");
  thumbnail_path := λ d, ("/media/thumbnails", Document.checksum d +:+ ".png.gpg");
  make_aware_fromtimestamp := λ t, Ok t;
  declaration_responses := [declare pdf_parser 5];
  during_sleep := λ fs, fs;
  os_path_exists := posix_exists;
  os_makedirs := posix_makedirs
|}.

(** An installation where the modification time of a file cannot be made an
    aware time. *)
Definition env_bad_clock : Env := {|
  md5_hexdigest := String.string_of_list_byte;
  title_regex_match := has_extension;
  from_path := λ file, Ok (file_info file);
  match_all := λ _, [];
  encrypted := gpg_up;
  source_path := λ d, ("/media/originals", Document.checksum d +:+ ".gpg");
  thumbnail_path := λ d, ("/media/thumbnails", Document.checksum d +:+ ".png.gpg");
  make_aware_fromtimestamp := λ _, Raise (OtherError "ValueError");
  declaration_responses := [declare pdf_parser 5];
  during_sleep := λ fs, fs;
  os_path_exists := posix_exists;
  os_makedirs := posix_makedirs
|}.

(** An installation where the file name cannot be read by [FileInfo]. *)
Definition env_bad_name : Env := {|
  md5_hexdigest := String.string_of_list_byte;
  title_regex_match := has_extension;
  from_path := λ _, Raise (ParseError "unable to parse the file name");
  match_all := λ _, [];
  encrypted := gpg_up;
  source_path := λ d, ("/media/originals", Document.checksum d +:+ ".gpg");
  thumbnail_path := λ d, ("/media/thumbnails", Document.checksum d +:+ ".png.gpg");
  make_aware_fromtimestamp := λ t, Ok t;
  declaration_responses := [declare pdf_parser 5];
  during_sleep := λ fs, fs;
  os_path_exists := posix_exists;
  os_makedirs := posix_makedirs
|}.
End Demo.

(** * Properties *)

(** ** Sorting *)

Section SortedFacts.
Context {A : Type} (key : A -> Z).

Lemma head_insert_sorted reverse x l :
  head (insert_sorted key reverse x l) = Some (front_after key reverse x (head l)).
Proof. destruct l as [|y l]; simpl; [done|]. by case_match. Qed.

Lemma sorted_nil_inv reverse l : sorted key reverse l = [] → l = [].
Proof.
  destruct l as [|x l]; [done|]. simpl. intros H.
  pose proof (head_insert_sorted reverse x (sorted key reverse l)) as Hh.
  by rewrite H in Hh.
Qed.

(** The front of [sorted(l, key, reverse=True)] is the first element of
    [l] among those of greatest key. *)
Lemma head_sorted_reverse l best :
  head (sorted key true l) = Some best →
  ∃ i : nat, l !! i = Some best
    ∧ (∀ (j : nat) o, l !! j = Some o → key o ≤ key best)
    ∧ (∀ (j : nat) o, (j < i)%nat → l !! j = Some o → key o < key best).
Proof.
  revert best. induction l as [|x l IH]; intros best; [done|].
  simpl. rewrite head_insert_sorted. intros [= <-].
  destruct (head (sorted key true l)) as [y|] eqn:Hy; simpl.
  - destruct (IH y eq_refl) as (i & Hi & Hmax & Hfirst).
    destruct (key x <? key y) eqn:Hlt.
    + apply Z.ltb_lt in Hlt. exists (S i). split_and!; [done| |].
      * intros [|j] o; simpl; [intros [= <-]; lia | eauto].
      * intros [|j] o Hj; simpl; [intros [= <-]; lia|].
        apply Hfirst. lia.
    + apply Z.ltb_ge in Hlt. exists 0%nat. split_and!; [done| |intros; lia].
      intros [|j] o; simpl; [intros [= <-]; lia|].
      intros Ho. specialize (Hmax _ _ Ho). lia.
  - destruct l as [|z l]; [|simpl in Hy; by rewrite head_insert_sorted in Hy].
    exists 0%nat. split_and!; [done| |intros; lia].
    intros [|j] o; simpl; [intros [= <-]; lia | done].
Qed.
End SortedFacts.

(** ** Parser selection *)

Section Selection.
Context (env : Env).

Lemma omap_id_fmap {A B} (f : A → option B) (l : list A) :
  omap id (f <$> l) = omap f l.
Proof.
  induction l as [|x l IH]; [done|]. csimpl. destruct (f x); csimpl; by rewrite IH.
Qed.

Lemma omap_all_None {A B} (f : A → option B) (l : list A) :
  (∀ x, x ∈ l → f x = None) → omap f l = [].
Proof.
  induction l as [|x l IH]; intros Hall; [done|]. csimpl.
  rewrite (Hall x) by left. apply IH. intros y Hy. apply Hall. by right.
Qed.

Lemma collect_options_omap ps doc options :
  collect_options ps doc options = options ++ omap (λ p, p doc) ps.
Proof.
  revert options. induction ps as [|p ps IH]; intros options; simpl.
  - by rewrite app_nil_r.
  - destruct (p doc); [|done]. by rewrite IH, <- app_assoc.
Qed.

Lemma _get_parser_class_run self doc s :
  _get_parser_class self doc s =
    (Ok (selection ((λ p, p doc) <$> parsers self)),
     set_trace (λ t, t ++ [EvLog Info (logging_group s)
       (MsgParsersAvailable
          ((λ o, parser_name (parser o)) <$> omap (λ p, p doc) (parsers self)))]) s).
Proof.
  unfold _get_parser_class, selection. rewrite collect_options_omap. simpl.
  rewrite omap_id_fmap.
  destruct (omap _ (parsers self)) as [|o os] eqn:Hos; [done|].
  destruct (sorted weight true (o :: os)) eqn:Hsorted; [|done].
  by apply sorted_nil_inv in Hsorted.
Qed.

(** C4.  Parser selection asks every registered declaration and keeps the
    acceptances in registration order; it returns none exactly when all
    decline; otherwise it returns the parser of an acceptance whose weight
    no other acceptance exceeds and which comes before every other
    acceptance of that weight.  The outcome depends on the answers only,
    and an acceptance of weight 10 beats one of weight 5 in either
    registration order. *)
Theorem parser_selection_highest_weight_first :
  ∀ (self : Consumer) (doc : Path) (s : State),
    let options := omap (λ p, p doc) (parsers self) in
    collect_options (parsers self) doc [] = options
    ∧ ∃ chosen,
        (_get_parser_class self doc s).1 = Ok chosen
        ∧ (chosen = None ↔ ∀ p, p ∈ parsers self → p doc = None)
        ∧ (options ≠ [] →
             ∃ (i : nat) best,
               options !! i = Some best ∧ chosen = Some (parser best)
               ∧ (∀ (j : nat) o, options !! j = Some o → weight o ≤ weight best)
               ∧ (∀ (j : nat) o, (j < i)%nat → options !! j = Some o →
                    weight o < weight best))
        ∧ (∀ self' doc' s',
             (λ p, p doc') <$> parsers self' = (λ p, p doc) <$> parsers self →
             (_get_parser_class self' doc' s').1 = Ok chosen)
        ∧ (∀ p10 p5 d10 d5,
             parsers self = [d10; d5] ∨ parsers self = [d5; d10] →
             d10 doc = Some {| parser := p10; weight := 10 |} →
             d5 doc = Some {| parser := p5; weight := 5 |} →
             chosen = Some p10).
Proof.
  intros self doc s options. split; [apply collect_options_omap|].
  rewrite _get_parser_class_run. eexists. split; [done|].
  assert (omap id ((λ p, p doc) <$> parsers self) = options) as Hopts
    by apply omap_id_fmap.
  unfold selection. rewrite Hopts. split_and!.
  - split.
    + intros Hnone p Hp.
      destruct (sorted weight true options) eqn:Hsorted; [|done].
      apply sorted_nil_inv in Hsorted.
      destruct (p doc) as [o|] eqn:Hpd; [|done].
      assert (o ∈ options) as Ho by (apply list_elem_of_omap; eauto).
      rewrite Hsorted in Ho. by apply not_elem_of_nil in Ho.
    + intros Hall. assert (options = []) as ->; [|done].
      by apply omap_all_None.
  - intros Hne.
    destruct (head (sorted weight true options)) as [best|] eqn:Hhead.
    + destruct (head_sorted_reverse weight _ _ Hhead) as (i & Hi & Hmax & Hfirst).
      by exists i, best.
    + destruct (sorted weight true options) eqn:Hsorted; [|done].
      by apply sorted_nil_inv in Hsorted.
  - intros self' doc' s' Heq. rewrite _get_parser_class_run. simpl.
    unfold selection. by rewrite Heq, Hopts.
  - intros p10 p5 d10 d5 Hps H10 H5. subst options.
    destruct Hps as [-> | ->]; simpl; rewrite H10, H5; reflexivity.
Qed.
End Selection.

(** ** Running the monad *)

Lemma bind_run {A B} (m : M A) (k : A → M B) s :
  (m ≫= k) s =
    match m s with
    | (Ok a, s') => k a s'
    | (Raise e, s') => (Raise e, s')
    end.
Proof. reflexivity. Qed.

Lemma log_run level msg s :
  log level msg s =
    (Ok tt, set_trace (λ t, t ++ [EvLog level (logging_group s) msg]) s).
Proof. reflexivity. Qed.

Lemma read_file_run p s :
  read_file p s =
    match files s !! p with
    | Some f => (Ok (f_content f), s)
    | None => (Raise (FileNotFoundError p), s)
    end.
Proof. unfold read_file. rewrite bind_run. simpl. by destruct (files s !! p). Qed.

Lemma os_stat_run p s :
  os_stat p s =
    match files s !! p with
    | Some f => (Ok f, s)
    | None => (Raise (FileNotFoundError p), s)
    end.
Proof. unfold os_stat. rewrite bind_run. simpl. by destruct (files s !! p). Qed.

Lemma getmtime_run p s :
  getmtime p s =
    match files s !! p with
    | Some f => (Ok (f_mtime f), s)
    | None => (Raise (FileNotFoundError p), s)
    end.
Proof.
  unfold getmtime. rewrite bind_run, os_stat_run. by destruct (files s !! p).
Qed.

Lemma mret_run {A} (a : A) s : (mret a : M A) s = (Ok a, s).
Proof. reflexivity. Qed.

Lemma lift_run {A} (r : Result A) s : lift r s = (r, s).
Proof. reflexivity. Qed.

Lemma emit_run e s : emit e s = (Ok tt, set_trace (λ t, t ++ [e]) s).
Proof. reflexivity. Qed.

Lemma modify_run f s : modify f s = (Ok tt, f s).
Proof. reflexivity. Qed.

Lemma try_except_ParseError_run {A B} (body : M A) (handler : string → M B)
    (orelse : A → M B) s :
  try_except_ParseError body handler orelse s =
    match body s with
    | (Ok a, s') => orelse a s'
    | (Raise (ParseError msg), s') => handler msg s'
    | (Raise e, s') => (Raise e, s')
    end.
Proof. reflexivity. Qed.

Lemma open_wb_run p s :
  open_wb p s =
    if decide (p.1 ∈ dirs s)
    then (Ok tt, set_trace (λ t, t ++ [EvOpenWrite p])
                   (set_files (insert p {| f_content := []; f_mtime := now s |}) s))
    else (Raise (FileNotFoundError p), s).
Proof. unfold open_wb. rewrite bind_run. simpl. by destruct (decide _). Qed.

Lemma write_run p data s :
  write p data s =
    (Ok tt, set_trace (λ t, t ++ [EvWrite p data])
              (set_files (insert p {| f_content := data; f_mtime := now s |}) s)).
Proof. reflexivity. Qed.

Lemma unlink_run p s :
  unlink p s =
    match files s !! p with
    | Some _ => (Ok tt, set_trace (λ t, t ++ [EvUnlink p]) (set_files (delete p) s))
    | None => (Raise (FileNotFoundError p), s)
    end.
Proof. unfold unlink. rewrite bind_run. simpl. by destruct (files s !! p). Qed.

Lemma objects_create_run correspondent title content file_type checksum created modified s :
  objects_create correspondent title content file_type checksum created modified s =
    let document :=
      Document.mk (S (max_list (Document.pk <$> documents s)))
        correspondent title content file_type checksum created modified in
    (Ok document,
     set_trace (λ t, t ++ [EvDbCreate document])
       (set_documents (λ ds, ds ++ [document]) s)).
Proof. reflexivity. Qed.

Lemma tags_add_run document tags s :
  tags_add document tags s =
    (Ok tt,
     set_trace (λ t, t ++ [EvTagsAdd (Document.pk document) (elements tags)])
       (set_document_tags (λ m,
          <[Document.pk document := tags ∪ default ∅ (m !! Document.pk document)]> m) s)).
Proof. reflexivity. Qed.

Lemma uuid4_run s : uuid4 s = (Ok (uuid_supply s), set_uuid_supply S s).
Proof. reflexivity. Qed.

Lemma call_parser_run {A} pc op doc (outcome : Result A) s :
  call_parser pc op doc outcome s =
    (outcome, set_trace (λ t, t ++ [EvParser (parser_name pc) op doc]) s).
Proof. unfold call_parser. rewrite bind_run, emit_run. reflexivity. Qed.

(** Symbolic execution of a monadic program in a hypothesis: unfold one
    step, then split on what the step depends on. *)
Ltac run_in H :=
  repeat first
    [ rewrite bind_run in H
    | rewrite mret_run in H
    | rewrite lift_run in H
    | rewrite log_run in H
    | rewrite emit_run in H
    | rewrite modify_run in H
    | rewrite read_file_run in H
    | rewrite os_stat_run in H
    | rewrite open_wb_run in H
    | rewrite write_run in H
    | rewrite unlink_run in H
    | rewrite objects_create_run in H
    | rewrite tags_add_run in H
    | rewrite uuid4_run in H
    | rewrite call_parser_run in H
    | rewrite try_except_ParseError_run in H
    | rewrite getmtime_run in H
    | progress simpl in H
    | match type of H with
      | context [match ?x with _ => _ end] =>
          lazymatch x with
          | context [match _ with _ => _ end] => fail
          | _ => destruct x eqn:?; simplify_eq
          end
      end ];
  simplify_eq.

(** ** The per-file attempt *)

Section Attempt.
Context (env : Env).

Lemma _is_duplicate_run doc s :
  _is_duplicate env doc s =
    match files s !! doc with
    | Some f => (Ok (checksum_exists (md5_hexdigest env (f_content f)) s), s)
    | None => (Raise (FileNotFoundError doc), s)
    end.
Proof.
  unfold _is_duplicate. rewrite bind_run, read_file_run.
  by destruct (files s !! doc).
Qed.

Lemma checksum_exists_true c s :
  checksum_exists c s = true ↔ ∃ d, d ∈ documents s ∧ Document.checksum d = c.
Proof.
  unfold checksum_exists. rewrite bool_decide_eq_true. apply Exists_exists.
Qed.

(** C1.  A file whose bytes hash to the checksum of a persisted Document is
    not consumed: the attempt returns False, the filesystem (the source
    file and every artifact), the Document table, the tags and the ignore
    list are what they were, and the only thing the attempt can add to the
    trace is the informational line that says the file is skipped: no
    notification is sent and no parser is called. *)
Theorem duplicate_not_consumed_no_effects :
  ∀ (self : Consumer) (file : Path) (f : File) (d : Document.t) (s : State),
    files s !! file = Some f →
    d ∈ documents s →
    Document.checksum d = md5_hexdigest env (f_content f) →
    ∃ s',
      try_consume_file env self file s = (Ok false, s')
      ∧ documents s' = documents s
      ∧ files s' = files s
      ∧ dirs s' = dirs s
      ∧ document_tags s' = document_tags s
      ∧ _ignore s' = _ignore s
      ∧ ∃ t, trace s' = trace s ++ t
           ∧ count_events is_notification t = 0%nat
           ∧ ∀ e, e ∈ t → e = EvLog Info (logging_group s) (MsgSkippingDuplicate file).
Proof.
  intros self file f d s Hfile Hd Hsum.
  assert (checksum_exists (md5_hexdigest env (f_content f)) s = true) as Hdup
    by (apply checksum_exists_true; eauto).
  unfold try_consume_file.
  destruct (title_regex_match env file); simpl.
  - rewrite bind_run, _is_duplicate_run, Hfile, Hdup, bind_run, log_run.
    eexists. split; [reflexivity|]. simpl. split_and!; try done.
    eexists. split_and!; [done..|].
    by intros e ->%list_elem_of_singleton.
  - exists s. split_and!; try done.
    exists []. rewrite app_nil_r. split_and!; try done.
    by intros e ?%not_elem_of_nil.
Qed.
End Attempt.

(** ** The store step *)

Section Store.
Context (env : Env).

(** A store step that returns has done everything: one row, with the
    checksum of the source and the resolved timestamp, and both artifacts,
    each holding the encryption of what its source held when it was read,
    that is after the artifact had been opened for writing. *)
Lemma _store_Ok text doc thumbnail date s d s' :
  _store env text doc thumbnail date s = (Ok d, s') →
  ∃ fi f,
    from_path env doc = Ok fi
    ∧ files s !! doc = Some f
    ∧ documents s' = documents s ++ [d]
    ∧ Document.checksum d = md5_hexdigest env (f_content f)
    ∧ resolved_created env fi date f = Ok (Document.created d)
    ∧ Document.modified d = Document.created d
    ∧ _ignore s' = _ignore s
    ∧ logging_group s' = logging_group s
    ∧ ∃ tagging fdoc c1 fthumb c2,
        truncated (source_path env d) (now s) (files s) !! doc = Some fdoc
        ∧ encrypted env (f_content fdoc) = Ok c1
        ∧ truncated (thumbnail_path env d) (now s)
            (holding (source_path env d) c1 (now s) (files s)) !! thumbnail
          = Some fthumb
        ∧ encrypted env (f_content fthumb) = Ok c2
        ∧ trace s' = trace s
          ++ [EvLog Debug (logging_group s) MsgSavingRecord; EvDbCreate d]
          ++ tagging
          ++ [EvOpenWrite (source_path env d);
              EvLog Debug (logging_group s) MsgEncryptingDocument;
              EvWrite (source_path env d) c1;
              EvOpenWrite (thumbnail_path env d);
              EvLog Debug (logging_group s) MsgEncryptingThumbnail;
              EvWrite (thumbnail_path env d) c2;
              EvLog Info (logging_group s) MsgCompleted]
        ∧ count_events is_unlink tagging = 0%nat
        ∧ files s' = holding (thumbnail_path env d) c2 (now s)
                       (holding (source_path env d) c1 (now s) (files s)).
Proof.
  unfold _store, resolved_created, truncated, holding. intros H.
  run_in H; rewrite ?insert_insert_eq in *.
  all: do 2 eexists; split_and!; try done; simpl.
  all: try (match goal with Hx : or_ _ _ = _ |- _ => by rewrite Hx end).
  all: (exists [] + eexists [_; _]); do 4 eexists;
    rewrite <- ?app_assoc; simpl; rewrite ?insert_insert_eq;
    split_and!; [| | | |reflexivity|done|reflexivity]; eassumption.
Qed.

(** A store step that raises has deleted nothing, and has either not
    touched the Document table and the files, or left the new row in the
    table. *)
Lemma _store_Raise text doc thumbnail date s e s' :
  _store env text doc thumbnail date s = (Raise e, s') →
  _ignore s' = _ignore s
  ∧ logging_group s' = logging_group s
  ∧ (∃ t, trace s' = trace s ++ t ∧ count_events is_unlink t = 0%nat)
  ∧ ((documents s' = documents s ∧ files s' = files s)
     ∨ ∃ f d,
         files s !! doc = Some f
         ∧ documents s' = documents s ++ [d]
         ∧ Document.checksum d = md5_hexdigest env (f_content f)).
Proof.
  unfold _store. intros H. run_in H; simpl;
    (split_and!;
      [ done | done
      | first [ by exists []; rewrite app_nil_r
              | eexists; split; [rewrite <- ?app_assoc; reflexivity | done] ]
      | eauto 10 ]).
Qed.

(** C8.  The Document a store step returns has [created] equal to the date
    in the file name when there is one, else to the date the extraction
    gave when there is one, else to the modification time of the source
    file, made an aware time; and [modified] equals [created]. *)
Theorem created_resolved_by_priority :
  ∀ (text : string) (doc thumbnail : Path) (date : option Z)
    (s s' : State) (d : Document.t),
    _store env text doc thumbnail date s = (Ok d, s') →
    ∃ fi f,
      from_path env doc = Ok fi
      ∧ files s !! doc = Some f
      ∧ d ∈ documents s'
      ∧ Document.modified d = Document.created d
      ∧ (∀ c, FileInfo.created fi = Some c → Document.created d = c)
      ∧ (∀ c, FileInfo.created fi = None → date = Some c →
           Document.created d = c)
      ∧ (FileInfo.created fi = None → date = None →
           make_aware_fromtimestamp env (f_mtime f) = Ok (Document.created d)).
Proof.
  intros text doc thumbnail date s s' d H.
  destruct (_store_Ok _ _ _ _ _ _ _ H)
    as (fi & f & Hfi & Hf & Hdocs & _ & Hcreated & Hmodified & _).
  unfold resolved_created, or_ in Hcreated.
  exists fi, f. split_and!; try done.
  - rewrite Hdocs. set_solver.
  - intros c Hc. rewrite Hc in Hcreated. by simplify_eq.
  - intros c Hc ->. rewrite Hc in Hcreated. by simplify_eq.
  - intros Hc ->. by rewrite Hc in Hcreated.
Qed.

End Store.


(** The modification time cannot be converted: the store step raises before
    the row is created, and so does the attempt, with the file left where
    it was and nothing written for it. *)
Lemma store_conversion_failure_creates_no_row :
  let before := Demo.initial in
  let outcome :=
    _store Demo.env_bad_clock "lorem ipsum" Demo.invoice Demo.thumb None before in
  let attempt := try_consume_file Demo.env_bad_clock Demo.self Demo.invoice before in
  outcome.1 = Raise (OtherError "ValueError")
  ∧ documents outcome.2 = []
  ∧ attempt.1 = Raise (OtherError "ValueError")
  ∧ documents attempt.2 = []
  ∧ files attempt.2 !! Demo.invoice = Some Demo.invoice_file
  ∧ files attempt.2 !! ("/media/originals", "ab.gpg") = None.
Proof. vm_compute. split_and!; reflexivity. Qed.


Lemma created_resolved_by_priority_witness :
  ∃ fi f,
    from_path Demo.env Demo.invoice = Ok fi
    ∧ files Demo.initial !! Demo.invoice = Some f
    ∧ Demo.stored_invoice ∈ documents
        (_store Demo.env "lorem ipsum" Demo.invoice Demo.thumb None Demo.initial).2
    ∧ Document.modified Demo.stored_invoice = Document.created Demo.stored_invoice
    ∧ (∀ c, FileInfo.created fi = Some c → Document.created Demo.stored_invoice = c)
    ∧ (∀ c, FileInfo.created fi = None → None = Some c →
         Document.created Demo.stored_invoice = c)
    ∧ (FileInfo.created fi = None → @None Z = None →
         make_aware_fromtimestamp Demo.env (f_mtime f)
           = Ok (Document.created Demo.stored_invoice)).
Proof.
  apply (created_resolved_by_priority Demo.env "lorem ipsum" Demo.invoice
           Demo.thumb None Demo.initial).
  vm_compute. reflexivity.
Defined.

Lemma count_events_app test t1 t2 :
  count_events test (t1 ++ t2) = (count_events test t1 + count_events test t2)%nat.
Proof. unfold count_events. by rewrite List.filter_app, length_app. Qed.

Lemma count_events_cons test e t :
  count_events test (e :: t) =
    ((if test e then 1 else 0) + count_events test t)%nat.
Proof. unfold count_events. simpl. by destruct (test e). Qed.

(** Symbolic execution in the goal. *)
Ltac run :=
  repeat first
    [ rewrite bind_run
    | rewrite mret_run
    | rewrite lift_run
    | rewrite log_run
    | rewrite emit_run
    | rewrite modify_run
    | rewrite uuid4_run
    | rewrite call_parser_run
    | rewrite try_except_ParseError_run
    | rewrite _is_duplicate_run
    | rewrite _get_parser_class_run
    | rewrite getmtime_run
    | progress simpl ].

(** ** Outcomes of the per-file attempt *)

Section Outcome.
Context (env : Env).

Lemma _store_ignore text doc thumbnail date s r s' :
  _store env text doc thumbnail date s = (r, s') → _ignore s' = _ignore s.
Proof.
  intros H. destruct r.
  - by destruct (_store_Ok _ _ _ _ _ _ _ _ H) as (? & ? & ? & ? & ? & ? & ? & ? & ? & ?).
  - by destruct (_store_Raise _ _ _ _ _ _ _ _ H) as (? & ?).
Qed.

Lemma try_consume_file_ignore self file s r s' :
  try_consume_file env self file s = (r, s') → _ignore s' = _ignore s.
Proof.
  unfold try_consume_file, _cleanup_doc. intros H.
  destruct (title_regex_match env file); simpl in H; [|by run_in H].
  rewrite bind_run, _is_duplicate_run in H.
  destruct (files s !! file) as [f|] eqn:Hf; [|by simplify_eq].
  destruct (checksum_exists _ s); [by run_in H|].
  rewrite bind_run, _get_parser_class_run in H.
  destruct (selection _) as [pc|]; [|by run_in H].
  run_in H; try done;
    match goal with
    | Hs : _store _ _ _ _ _ _ = _ |- _ => apply _store_ignore in Hs; by simpl in *
    end.
Qed.

(** C3.  When the attempt returns True, the Document table has gained exactly
    one row, whose checksum is the hash of the bytes the source file had;
    the source file is gone; and in the trace the one deletion of the
    attempt, that of the source file, comes after the creation of the row and
    after the write of its encrypted content: nothing is deleted before.
    What was written is the encryption of the bytes of the source file, and
    the artifact holds it afterwards (the store step opens the artifact for
    writing before it reads the source, so an artifact path that is the
    source path itself gets the encryption of nothing, and an artifact path
    shared with the thumbnail ends up holding the thumbnail). *)
Theorem consumed_file_stored_then_deleted :
  ∀ (self : Consumer) (file : Path) (s s' : State),
    try_consume_file env self file s = (Ok true, s') →
    ∃ f d,
      files s !! file = Some f
      ∧ documents s' = documents s ++ [d]
      ∧ Document.checksum d = md5_hexdigest env (f_content f)
      ∧ files s' !! file = None
      ∧ ∃ t1 t2 c t3 t4,
          trace s' = trace s ++ t1 ++ [EvDbCreate d] ++ t2
                       ++ [EvWrite (source_path env d) c] ++ t3
                       ++ [EvUnlink file] ++ t4
          ∧ count_events is_unlink
              (t1 ++ [EvDbCreate d] ++ t2 ++ [EvWrite (source_path env d) c] ++ t3)
            = 0%nat
          ∧ count_events is_unlink t4 = 0%nat
          ∧ (source_path env d ≠ file → encrypted env (f_content f) = Ok c)
          ∧ (source_path env d = file → encrypted env [] = Ok c)
          ∧ (source_path env d ≠ file →
             source_path env d ≠ thumbnail_path env d →
             files s' !! source_path env d
               = Some {| f_content := c; f_mtime := now s |}).
Proof.
  intros self file s s'. unfold try_consume_file, _cleanup_doc. intros H.
  destruct (title_regex_match env file); simpl in H; [|by run_in H].
  rewrite bind_run, _is_duplicate_run in H.
  destruct (files s !! file) as [f|] eqn:Hf; [|by simplify_eq].
  destruct (checksum_exists _ s); [by run_in H|].
  rewrite bind_run, _get_parser_class_run in H.
  destruct (selection _) as [pc|]; [|by run_in H].
  run_in H.
  match goal with Hs : _store _ _ _ _ _ _ = _ |- _ =>
    destruct (_store_Ok _ _ _ _ _ _ _ _ Hs)
      as (fi & f' & _ & Hf' & Hdocs & Hsum & _ & _ & _ & _ & tagging & fdoc & c1
          & fthumb & c2 & Hdoc & H1 & _ & _ & Htrace & Htag & Hfiles)
  end.
  unfold truncated, holding in *.
  simpl in Hf', Hdocs, Htrace, Hdoc, Hfiles. simplify_eq.
  exists f, a2. simpl. split_and!; [done..|by rewrite lookup_delete_eq|].
  rewrite Htrace.
  eexists [_; _; _; _; _; _; _; _], (tagging ++ [_; _]), c1, [_; _; _; _; _; _], [_; _].
  split_and!.
  - repeat first [rewrite <- app_assoc | progress simpl]. reflexivity.
  - repeat first [rewrite count_events_app | rewrite count_events_cons].
    rewrite Htag. reflexivity.
  - reflexivity.
  - intros Hne. rewrite lookup_insert_ne in Hdoc by done. by simplify_eq.
  - intros Heq. rewrite Heq, lookup_insert_eq in Hdoc. by simplify_eq.
  - intros Hne1 Hne2. rewrite Hfiles.
    rewrite lookup_delete_ne by done.
    rewrite lookup_insert_ne by done.
    by rewrite lookup_insert_eq.
Qed.

(** C5.  When the first extraction call that fails (thumbnail, date, text, in
    that order) raises a parse error, the attempt returns False, the
    Document table and the files are what they were (the source file is
    still there), the failure is logged as an error with its cause, and the
    parser's cleanup is called exactly once. *)
Theorem parse_error_not_consumed :
  ∀ (self : Consumer) (file : Path) (f : File) (pc : ParserClass)
    (msg : string) (s : State),
    title_regex_match env file = true →
    files s !! file = Some f →
    checksum_exists (md5_hexdigest env (f_content f)) s = false →
    selection ((λ p, p file) <$> parsers self) = Some pc →
    extraction pc file = Raise (ParseError msg) →
    ∃ s',
      try_consume_file env self file s = (Ok false, s')
      ∧ documents s' = documents s
      ∧ files s' = files s
      ∧ files s' !! file = Some f
      ∧ ∃ t, trace s' = trace s ++ t
           ∧ EvLog Error (logging_group s') (MsgParseFailure file msg) ∈ t
           ∧ count_events is_cleanup_call t = 1%nat
           ∧ count_events is_unlink t = 0%nat.
Proof.
  intros self file f pc msg s Hmatch Hf Hdup Hsel Hext.
  unfold try_consume_file. rewrite Hmatch. simpl.
  rewrite bind_run, _is_duplicate_run, Hf, Hdup.
  rewrite bind_run, _get_parser_class_run, Hsel.
  unfold extraction in Hext.
  destruct (get_thumbnail pc file) as [thumbnail|e1] eqn:H1;
    [destruct (get_date pc file) as [date|e2] eqn:H2;
      [destruct (get_text pc file) as [text|e3] eqn:H3|]|];
    simplify_eq; run;
    (eexists; split; [reflexivity|]; simpl; split_and!; [done..|];
     eexists; split; [by repeat first [rewrite <- app_assoc | progress simpl]|];
     split_and!; [set_solver|done|done]).
Qed.

Lemma State_eq (s1 s2 : State) :
  files s1 = files s2 → dirs s1 = dirs s2 → documents s1 = documents s2 →
  document_tags s1 = document_tags s2 → trace s1 = trace s2 → now s1 = now s2 →
  uuid_supply s1 = uuid_supply s2 → _ignore s1 = _ignore s2 →
  logging_group s1 = logging_group s2 → s1 = s2.
Proof. destruct s1, s2. simpl. by intros -> -> -> -> -> -> -> -> ->. Qed.

Lemma state_at_store_steps self pc file s :
  state_at_store self pc file s =
    set_trace (λ t, t ++ [EvParser (parser_name pc) OpText file])
   (set_trace (λ t, t ++ [EvParser (parser_name pc) OpDate file])
   (set_trace (λ t, t ++ [EvParser (parser_name pc) OpThumbnail file])
   (set_trace (λ t, t ++ [EvParser (parser_name pc) OpInit file])
   (set_trace (λ t, t ++ [EvStarted file (Some (uuid_supply s))])
   (set_trace (λ t, t ++ [EvLog Info (Some (uuid_supply s)) (MsgConsuming file)])
   (set_logging_group (λ _, Some (uuid_supply s))
   (set_uuid_supply S
   (set_trace (λ t, t ++ [EvLog Info (logging_group s)
      (MsgParsersAvailable
         ((λ o, parser_name (parser o)) <$> omap (λ p, p file) (parsers self)))])
      s)))))))).
Proof.
  apply State_eq; try reflexivity. simpl.
  by repeat first [rewrite <- app_assoc | progress simpl].
Qed.

(** Up to the store step. *)
Lemma try_consume_file_reaches_store self file f pc thumbnail date text s :
  title_regex_match env file = true →
  files s !! file = Some f →
  checksum_exists (md5_hexdigest env (f_content f)) s = false →
  selection ((λ p, p file) <$> parsers self) = Some pc →
  extraction pc file = Ok (thumbnail, date, text) →
  ∀ e s2,
    _store env text file thumbnail date (state_at_store self pc file s)
      = (Raise e, s2) →
    is_ParseError e = false →
    try_consume_file env self file s = (Raise e, s2).
Proof.
  intros Hmatch Hf Hdup Hsel Hext e s2 Hstore He.
  unfold try_consume_file. rewrite Hmatch. simpl.
  rewrite bind_run, _is_duplicate_run, Hf, Hdup.
  rewrite bind_run, _get_parser_class_run, Hsel.
  unfold extraction in Hext.
  destruct (get_thumbnail pc file) as [thumbnail'|e1] eqn:H1; [|done].
  destruct (get_date pc file) as [date'|e2] eqn:H2; [|done].
  destruct (get_text pc file) as [text'|e3] eqn:H3; [|done].
  simplify_eq. rewrite state_at_store_steps in Hstore. run.
  rewrite Hstore. by destruct e.
Qed.

Lemma consume_entries_app self pre post s0 :
  consume_entries env self (pre ++ post) s0 =
    match consume_entries env self pre s0 with
    | (Ok _, s) => consume_entries env self post s
    | (Raise e, s) => (Raise e, s)
    end.
Proof.
  revert s0. induction pre as [|entry pre IH]; intros s0; simpl; [done|].
  rewrite !bind_run. destruct (consume_entry env self entry s0) as [[[]|e] s1]; [|done].
  apply IH.
Qed.

Lemma consume_new_files_run self s_init scanned s_scan :
  scan self s_init = (Ok scanned, s_scan) →
  scanned ≠ [] →
  consume_new_files env self s_init =
    consume_entries env self (sorted snd false scanned)
      (sleep env FILES_MIN_UNMODIFIED_DURATION s_scan).2.
Proof.
  intros Hscan Hne. unfold consume_new_files. rewrite bind_run, Hscan.
  destruct scanned as [|entry scanned]; [done|].
  rewrite bind_run. unfold sleep at 1. run. reflexivity.
Qed.

(** C10.  When the store step of a file raises anything but a parse error,
    the attempt on the file raises it, and so does the pass, in the state
    the store step left: the entries that come after the file in the
    oldest-first order are not processed in that pass. *)
Theorem store_failure_aborts_pass :
  ∀ (self : Consumer) (s_init s_scan s s2 : State)
    (scanned pre post : list (Path * Z))
    (file : Path) (f : File) (pc : ParserClass)
    (thumbnail : Path) (date : option Z) (text : string) (e : Exn),
    scan self s_init = (Ok scanned, s_scan) →
    sorted snd false scanned = pre ++ (file, f_mtime f) :: post →
    consume_entries env self pre
      (sleep env FILES_MIN_UNMODIFIED_DURATION s_scan).2 = (Ok tt, s) →
    files s !! file = Some f →
    title_regex_match env file = true →
    checksum_exists (md5_hexdigest env (f_content f)) s = false →
    selection ((λ p, p file) <$> parsers self) = Some pc →
    extraction pc file = Ok (thumbnail, date, text) →
    _store env text file thumbnail date (state_at_store self pc file s)
      = (Raise e, s2) →
    is_ParseError e = false →
    try_consume_file env self file s = (Raise e, s2)
    ∧ consume_new_files env self s_init = (Raise e, s2).
Proof.
  intros self s_init s_scan s s2 scanned pre post file f pc thumbnail date text e
    Hscan Hsorted Hpre Hf Hmatch Hdup Hsel Hext Hstore He.
  pose proof (try_consume_file_reaches_store self file f pc thumbnail date text s
                Hmatch Hf Hdup Hsel Hext e s2 Hstore He) as Hraise.
  split; [done|].
  rewrite (consume_new_files_run _ _ _ _ Hscan).
  - rewrite Hsorted, consume_entries_app, Hpre. simpl.
    rewrite bind_run. unfold consume_entry. rewrite bind_run, getmtime_run, Hf.
    rewrite decide_True by done. by rewrite bind_run, Hraise.
  - intros ->. by destruct pre.
Qed.
End Outcome.

Section SortedPerm.
Context {A : Type} (key : A → Z).

Lemma insert_sorted_Permutation reverse x l :
  insert_sorted key reverse x l ≡ₚ x :: l.
Proof.
  induction l as [|y l IH]; simpl; [done|].
  case_match; [|done]. rewrite IH. apply Permutation_swap.
Qed.

Lemma sorted_Permutation reverse l : sorted key reverse l ≡ₚ l.
Proof.
  induction l as [|x l IH]; simpl; [done|].
  by rewrite insert_sorted_Permutation, IH.
Qed.
End SortedPerm.

(** ** The pass *)

Section Pass.
Context (env : Env).

Lemma consume_entries_cons self entry rest s :
  consume_entries env self (entry :: rest) s =
    match consume_entry env self entry s with
    | (Ok _, s') => consume_entries env self rest s'
    | (Raise e, s') => (Raise e, s')
    end.
Proof. reflexivity. Qed.

Lemma scan_NoDup self s scanned s' :
  scan self s = (Ok scanned, s') → NoDup (scanned.*1) ∧ s' = s.
Proof.
  unfold scan, scandir. intros H. run_in H. split; [|done].
  rewrite <- list_fmap_compose.
  rewrite (list_fmap_ext (fst ∘ (λ e : Path * File, (e.1, f_mtime e.2))) fst)
    by done.
  eapply sublist_NoDup; [apply (NoDup_fst_map_to_list (files s'))|].
  apply fmap_sublist.
  etrans; apply sublist_filter.
Qed.

(** C7.  An entry of the pass whose file, when its turn comes after the
    settle delay, has a modification time other than the one the scan saw,
    is stepped over: the state is left as it is, no attempt is made, the
    pass goes on with the entries that follow, and no other entry of the
    pass is for that file. *)
Theorem modified_file_not_attempted :
  ∀ (self : Consumer) (s_init s_scan s : State)
    (scanned pre post : list (Path * Z)) (file : Path) (mtime : Z) (f : File),
    scan self s_init = (Ok scanned, s_scan) →
    sorted snd false scanned = pre ++ (file, mtime) :: post →
    consume_entries env self pre
      (sleep env FILES_MIN_UNMODIFIED_DURATION s_scan).2 = (Ok tt, s) →
    files s !! file = Some f →
    f_mtime f ≠ mtime →
    consume_entry env self (file, mtime) s = (Ok tt, s)
    ∧ consume_new_files env self s_init = consume_entries env self post s
    ∧ file ∉ (pre ++ post).*1.
Proof.
  intros self s_init s_scan s scanned pre post file mtime f
    Hscan Hsorted Hpre Hf Hne.
  assert (consume_entry env self (file, mtime) s = (Ok tt, s)) as Hentry.
  { unfold consume_entry. rewrite bind_run, getmtime_run, Hf.
    by rewrite decide_False by done. }
  split_and!; [done| |].
  - rewrite (consume_new_files_run _ _ _ _ _ Hscan).
    + rewrite Hsorted, consume_entries_app, Hpre, consume_entries_cons.
      by rewrite Hentry.
    + intros ->. by destruct pre.
  - destruct (scan_NoDup _ _ _ _ Hscan) as [Hnodup _].
    rewrite <- (sorted_Permutation snd false), Hsorted in Hnodup.
    rewrite fmap_app, fmap_cons in Hnodup. simpl in Hnodup.
    apply NoDup_app in Hnodup as (_ & Hpre_post & Hpost).
    apply NoDup_cons in Hpost as [Hpost _].
    rewrite fmap_app, elem_of_app. intros [Hin|Hin]; [|done].
    apply (Hpre_post _ Hin). by left.
Qed.

(** C6, as the code has it.  For an entry whose file is unchanged since the
    scan, the file is appended to the ignore list exactly when the attempt
    returns False: that is so when the name does not match the pattern and
    when no parser applies, and also when the file is a duplicate; a file
    that is consumed is not appended. *)
Theorem failed_attempt_is_ignored :
  ∀ (self : Consumer) (file : Path) (f : File) (s s' : State) (r : Result unit),
    files s !! file = Some f →
    consume_entry env self (file, f_mtime f) s = (r, s') →
    (title_regex_match env file = false →
       r = Ok tt ∧ _ignore s' = _ignore s ++ [file])
    ∧ (title_regex_match env file = true →
       checksum_exists (md5_hexdigest env (f_content f)) s = false →
       selection ((λ p, p file) <$> parsers self) = None →
       r = Ok tt ∧ _ignore s' = _ignore s ++ [file])
    ∧ (title_regex_match env file = true →
       checksum_exists (md5_hexdigest env (f_content f)) s = true →
       r = Ok tt ∧ _ignore s' = _ignore s ++ [file])
    ∧ (∀ s1, try_consume_file env self file s = (Ok false, s1) →
         r = Ok tt ∧ _ignore s' = _ignore s ++ [file])
    ∧ (∀ s1, try_consume_file env self file s = (Ok true, s1) →
         r = Ok tt ∧ s' = s1 ∧ _ignore s' = _ignore s).
Proof.
  intros self file f s s' r Hf Hentry.
  unfold consume_entry in Hentry.
  rewrite bind_run, getmtime_run, Hf, decide_True, bind_run in Hentry by done.
  assert (∀ s1, try_consume_file env self file s = (Ok false, s1) →
            r = Ok tt ∧ _ignore s' = _ignore s ++ [file]) as Hfalse.
  { intros s1 Htry. rewrite Htry in Hentry. run_in Hentry. simpl.
    by rewrite (try_consume_file_ignore _ _ _ _ _ _ Htry). }
  split_and!; [..|done|].
  - intros Hmatch. eapply Hfalse.
    unfold try_consume_file. by rewrite Hmatch.
  - intros Hmatch Hdup Hsel. eapply Hfalse.
    unfold try_consume_file. rewrite Hmatch. simpl.
    rewrite bind_run, _is_duplicate_run, Hf, Hdup.
    rewrite bind_run, _get_parser_class_run, Hsel. by run.
  - intros Hmatch Hdup. eapply Hfalse.
    unfold try_consume_file. rewrite Hmatch. simpl.
    rewrite bind_run, _is_duplicate_run, Hf, Hdup. by run.
  - intros s1 Htry. rewrite Htry in Hentry. run_in Hentry.
    split_and!; [done..|]. by apply try_consume_file_ignore in Htry.
Qed.
End Pass.

(** A pass over a directory that holds one file, a duplicate: the pass
    ends with the file on the ignore list. *)
Lemma duplicate_is_put_on_ignore_list :
  let before := Demo.initial_seen in
  let pass := consume_new_files Demo.env Demo.self before in
  (_is_duplicate Demo.env Demo.invoice before).1 = Ok true
  ∧ pass.1 = Ok tt
  ∧ _ignore before = []
  ∧ _ignore pass.2 = [Demo.invoice].
Proof. vm_compute. done. Qed.

Lemma foldl_append {A} (l acc : list A) :
  foldl (λ acc x, acc ++ [x]) acc l = acc ++ l.
Proof.
  revert acc. induction l as [|x l IH]; intros acc; simpl.
  - by rewrite app_nil_r.
  - by rewrite IH, <- app_assoc.
Qed.

Lemma make_dirs_single env d s :
  make_dirs env [d] s =
    match os_makedirs env (files s) (dirs s) d with
    | Ok ds => (Ok tt, set_trace (λ t, t ++ [EvMakeDir d]) (set_dirs (λ _, ds) s))
    | Raise (FileExistsError _) => (Ok tt, s)
    | Raise e => (Raise e, s)
    end.
Proof.
  unfold make_dirs, makedirs. rewrite bind_run. simpl.
  by destruct (os_makedirs env (files s) (dirs s) d) as [ds|[]].
Qed.

(** ** Construction *)

Section Init.
Context (env : Env).

(** C9, as the code has it.  The constructor deals with the scratch
    directory first: an error of its creation other than that the name
    exists already is raised as it is, before any check.  Otherwise the
    constructor raises [ConsumerError] exactly when the setting of the
    consumption directory is unset (absent or empty), or [os.path.exists]
    answers no for it in the directories there are once the scratch
    directory has been dealt with, or no parser is registered; it raises
    nothing else, and what it returns has the setting, the scratch directory
    and the registered parsers.  Whatever the outcome, the files and the
    Document table are what they were, the ignore list is empty, and the
    only thing done is to make the scratch directory. *)
Theorem init_raises_exactly_on_bad_configuration :
  ∀ (setting : option string) (scratch_dir : string) (s : State),
    let outcome := __init__ env setting scratch_dir s in
    (∀ e, dirs_at_check env scratch_dir s = Raise e →
       outcome.1 = Raise e ∧ dirs outcome.2 = dirs s)
    ∧ (∀ ds, dirs_at_check env scratch_dir s = Ok ds →
         dirs outcome.2 = ds
         ∧ ((∃ msg, outcome.1 = Raise (ConsumerError msg)) ↔
              (setting = None ∨ setting = Some "")
              ∨ (∃ dir, setting = Some dir
                        ∧ os_path_exists env (files s) ds dir = false)
              ∨ declaration_responses env = [])
         ∧ (∀ e, outcome.1 = Raise e → is_ConsumerError e = true)
         ∧ (∀ self, outcome.1 = Ok self →
              setting = Some (consume self)
              ∧ scratch self = scratch_dir
              ∧ parsers self = declaration_responses env))
    ∧ files outcome.2 = files s
    ∧ documents outcome.2 = documents s
    ∧ _ignore outcome.2 = []
    ∧ ∃ t, trace outcome.2 = trace s ++ t
         ∧ ∀ e, e ∈ t → e = EvMakeDir scratch_dir.
Proof.
  intros setting scratch_dir s outcome. subst outcome.
  unfold __init__, dirs_at_check.
  do 2 (rewrite bind_run, modify_run; cbv beta iota).
  rewrite bind_run, make_dirs_single. simpl.
  assert (∀ t0 : list Event, ∃ t, t0 = t0 ++ t ∧ ∀ e, e ∈ t → e = EvMakeDir scratch_dir)
    as Hnone.
  { intros t0. exists []. rewrite app_nil_r. split; [done|].
    by intros e ?%not_elem_of_nil. }
  assert (∀ t0 : list Event,
            ∃ t, t0 ++ [EvMakeDir scratch_dir] = t0 ++ t
                 ∧ ∀ e, e ∈ t → e = EvMakeDir scratch_dir) as Hone.
  { intros t0. eexists. split; [done|]. by intros e ->%list_elem_of_singleton. }
  assert (∀ (s1 : State) (ds : gset string),
    files s1 = files s → dirs s1 = ds →
    let outcome :=
      match setting with
      | Some "" | None =>
          raise (ConsumerError
            "The CONSUMPTION_DIR settings variable does not appear to be set.")
      | Some dir =>
          s0 ← get;
          if os_path_exists env (files s0) (dirs s0) dir then
            match foldl (λ acc response, acc ++ [response]) []
                    (declaration_responses env) with
            | [] =>
                raise (ConsumerError
                  "No parsers could be found, not even the default.  This is a problem.")
            | _ =>
                mret {| consume := dir; scratch := scratch_dir;
                        parsers := foldl (λ acc response, acc ++ [response]) []
                                     (declaration_responses env) |}
            end
          else
            raise (ConsumerError
              ("Consumption directory " +:+ dir +:+ " does not exist"))
      end s1 in
    outcome.2 = s1
    ∧ ((∃ msg, outcome.1 = Raise (ConsumerError msg)) ↔
         (setting = None ∨ setting = Some "")
         ∨ (∃ dir, setting = Some dir
                   ∧ os_path_exists env (files s) ds dir = false)
         ∨ declaration_responses env = [])
    ∧ (∀ e, outcome.1 = Raise e → is_ConsumerError e = true)
    ∧ (∀ self, outcome.1 = Ok self →
         setting = Some (consume self)
         ∧ scratch self = scratch_dir
         ∧ parsers self = declaration_responses env)) as Hchecks.
  { intros s1 ds Hfiles Hdirs. rewrite foldl_append. simpl.
    destruct setting as [[|a dir]|]; simpl.
    - split_and!; try done; [|by intros e [= <-]]. split; [by auto|by eauto].
    - rewrite bind_run. simpl. rewrite Hfiles, Hdirs.
      destruct (os_path_exists env (files s) ds (String a dir)) eqn:Hexists.
      + destruct (declaration_responses env) as [|r rs] eqn:Hrs; simpl.
        * split_and!; try done; [|by intros e [= <-]]. split; [by auto|by eauto].
        * split_and!; try done; [|by intros self [= <-]]. split; [by intros [? ?]|].
          intros [[?|?]|[(dir' & ? & ?)|?]]; simplify_eq. congruence.
      + simpl. split_and!; try done; [|by intros e [= <-]].
        split; [|by eauto]. intros _. right. left. eauto.
    - split_and!; try done; [|by intros e [= <-]]. split; [by auto|by eauto]. }
  destruct (os_makedirs env (files s) (dirs s) scratch_dir) as [ds|e] eqn:Hmk.
  - match goal with |- context [match setting with _ => _ end ?s1] =>
      destruct (Hchecks s1 ds eq_refl eq_refl) as (Hs1 & Hiff & Hraise & Hok)
    end.
    cbv zeta in Hs1, Hiff, Hraise, Hok.
    split_and!; [done| |by rewrite Hs1..|rewrite Hs1; apply Hone].
    intros ? [= <-]. rewrite Hs1. done.
  - assert (is_FileExistsError e = true ∨ is_FileExistsError e = false) as [He|He]
      by (destruct (is_FileExistsError e); auto).
    + destruct e; try done.
      match goal with |- context [match setting with _ => _ end ?s1] =>
        destruct (Hchecks s1 (dirs s) eq_refl eq_refl) as (Hs1 & Hiff & Hraise & Hok)
      end.
      cbv zeta in Hs1, Hiff, Hraise, Hok.
      split_and!; [done| |by rewrite Hs1..|rewrite Hs1; apply Hnone].
      intros ? [= <-]. rewrite Hs1. done.
    + destruct e; try done; simpl;
        (split_and!; [by intros ? [= <-]|done|done|done|done|apply Hnone]).
Qed.
End Init.

(** The consumption directory is missing and is also the scratch directory:
    the constructor makes it and returns a consumer. *)
Lemma init_accepts_missing_directory_it_makes :
  let outcome := __init__ Demo.env (Some "/inbox") "/inbox" Demo.initial in
  os_path_exists Demo.env (files Demo.initial) (dirs Demo.initial) "/inbox" = false
  ∧ (declaration_responses Demo.env ≠ [])
  ∧ outcome.1 = Ok {| consume := "/inbox"; scratch := "/inbox";
                      parsers := declaration_responses Demo.env |}
  ∧ os_path_exists Demo.env (files outcome.2) (dirs outcome.2) "/inbox" = true.
Proof. split_and!; [by vm_compute|done|by vm_compute|by vm_compute]. Qed.

(** What the check accepts is what [os.path.exists] accepts: a name that is
    a regular file, a name with a slash at its end, and a directory that
    lies above the scratch directory and is made along with it. *)
Lemma init_accepts_what_exists :
  returned (__init__ Demo.env (Some "/consume/invoice.pdf") "/tmp/paperless"
              Demo.initial).1 = true
  ∧ returned (__init__ Demo.env (Some "/consume/") "/tmp/paperless"
                Demo.initial).1 = true
  ∧ os_path_exists Demo.env (files Demo.initial) (dirs Demo.initial) "/var" = false
  ∧ returned (__init__ Demo.env (Some "/var") "/var/paperless/scratch"
                Demo.initial).1 = true
  ∧ returned (__init__ Demo.env (Some "/var") "/tmp/paperless"
                Demo.initial).1 = false.
Proof. split_and!; by vm_compute. Qed.

(** A regular file that has the name of the scratch directory is passed
    over like a directory of that name; a regular file above it is not. *)
Lemma init_scratch_is_a_file :
  returned (__init__ Demo.env (Some "/consume") "/consume/invoice.pdf"
              Demo.initial).1 = true
  ∧ (__init__ Demo.env (Some "/consume") "/consume/invoice.pdf/scratch"
       Demo.initial).1 = Raise (OtherError "NotADirectoryError").
Proof. split_and!; by vm_compute. Qed.

(** ** The properties at work on the concrete installation *)

Lemma duplicate_not_consumed_no_effects_witness :
  ∃ s',
    try_consume_file Demo.env Demo.self Demo.invoice Demo.initial_seen = (Ok false, s')
    ∧ documents s' = documents Demo.initial_seen
    ∧ files s' = files Demo.initial_seen
    ∧ dirs s' = dirs Demo.initial_seen
    ∧ document_tags s' = document_tags Demo.initial_seen
    ∧ _ignore s' = _ignore Demo.initial_seen
    ∧ ∃ t, trace s' = trace Demo.initial_seen ++ t
         ∧ count_events is_notification t = 0%nat
         ∧ ∀ e, e ∈ t →
             e = EvLog Info (logging_group Demo.initial_seen)
                   (MsgSkippingDuplicate Demo.invoice).
Proof.
  apply (duplicate_not_consumed_no_effects Demo.env Demo.self Demo.invoice
           Demo.invoice_file Demo.seen_before Demo.initial_seen).
  - reflexivity.
  - simpl. left.
  - reflexivity.
Defined.

Lemma consumed_file_stored_then_deleted_witness :
  let s := Demo.initial in
  let s' := (try_consume_file Demo.env Demo.self Demo.invoice s).2 in
  ∃ f d,
    files s !! Demo.invoice = Some f
    ∧ documents s' = documents s ++ [d]
    ∧ Document.checksum d = md5_hexdigest Demo.env (f_content f)
    ∧ files s' !! Demo.invoice = None
    ∧ ∃ t1 t2 c t3 t4,
        trace s' = trace s ++ t1 ++ [EvDbCreate d] ++ t2
                     ++ [EvWrite (source_path Demo.env d) c] ++ t3
                     ++ [EvUnlink Demo.invoice] ++ t4
        ∧ count_events is_unlink
            (t1 ++ [EvDbCreate d] ++ t2
               ++ [EvWrite (source_path Demo.env d) c] ++ t3) = 0%nat
        ∧ count_events is_unlink t4 = 0%nat
        ∧ (source_path Demo.env d ≠ Demo.invoice →
           encrypted Demo.env (f_content f) = Ok c)
        ∧ (source_path Demo.env d = Demo.invoice → encrypted Demo.env [] = Ok c)
        ∧ (source_path Demo.env d ≠ Demo.invoice →
           source_path Demo.env d ≠ thumbnail_path Demo.env d →
           files s' !! source_path Demo.env d
             = Some {| f_content := c; f_mtime := now s |}).
Proof.
  intros s s'.
  apply (consumed_file_stored_then_deleted Demo.env Demo.self Demo.invoice s s').
  vm_compute. reflexivity.
Defined.

Lemma parse_error_not_consumed_witness :
  let s := Demo.initial in
  ∃ s',
    try_consume_file Demo.env Demo.self_broken Demo.invoice s = (Ok false, s')
    ∧ documents s' = documents s
    ∧ files s' = files s
    ∧ files s' !! Demo.invoice = Some Demo.invoice_file
    ∧ ∃ t, trace s' = trace s ++ t
         ∧ EvLog Error (logging_group s')
             (MsgParseFailure Demo.invoice "tesseract failed") ∈ t
         ∧ count_events is_cleanup_call t = 1%nat
         ∧ count_events is_unlink t = 0%nat.
Proof.
  intros s.
  apply (parse_error_not_consumed Demo.env Demo.self_broken Demo.invoice
           Demo.invoice_file Demo.broken_parser "tesseract failed" s);
    reflexivity.
Defined.

Lemma store_failure_aborts_pass_witness :
  let s_init := Demo.initial_two in
  let s := (sleep Demo.env_gpg_down FILES_MIN_UNMODIFIED_DURATION s_init).2 in
  let s2 :=
    (_store Demo.env_gpg_down "lorem ipsum" Demo.invoice Demo.thumb None
       (state_at_store Demo.self Demo.pdf_parser Demo.invoice s)).2 in
  try_consume_file Demo.env_gpg_down Demo.self Demo.invoice s
    = (Raise (OtherError "GPGError"), s2)
  ∧ consume_new_files Demo.env_gpg_down Demo.self s_init
    = (Raise (OtherError "GPGError"), s2).
Proof.
  intros s_init s s2.
  apply (store_failure_aborts_pass Demo.env_gpg_down Demo.self s_init s_init s s2
           [(Demo.invoice, 10); (Demo.letter, 12)] [] [(Demo.letter, 12)]
           Demo.invoice Demo.invoice_file Demo.pdf_parser Demo.thumb None
           "lorem ipsum" (OtherError "GPGError"));
    vm_compute; reflexivity.
Defined.

Lemma modified_file_not_attempted_witness :
  let s_init := Demo.initial in
  let s := (sleep Demo.env_still_writing FILES_MIN_UNMODIFIED_DURATION s_init).2 in
  consume_entry Demo.env_still_writing Demo.self (Demo.invoice, 10) s = (Ok tt, s)
  ∧ consume_new_files Demo.env_still_writing Demo.self s_init
    = consume_entries Demo.env_still_writing Demo.self [] s
  ∧ Demo.invoice ∉ ([] ++ [] : list (Path * Z)).*1.
Proof.
  intros s_init s.
  apply (modified_file_not_attempted Demo.env_still_writing Demo.self s_init s_init s
           [(Demo.invoice, 10)] [] [] Demo.invoice 10
           {| f_content := [x61; x62; x63]; f_mtime := 101 |}).
  - vm_compute. reflexivity.
  - reflexivity.
  - reflexivity.
  - vm_compute. reflexivity.
  - simpl. lia.
Defined.

Lemma failed_attempt_is_ignored_witness :
  let s := Demo.initial_seen in
  let outcome :=
    consume_entry Demo.env Demo.self (Demo.invoice, f_mtime Demo.invoice_file) s in
  outcome.1 = Ok tt ∧ _ignore outcome.2 = _ignore s ++ [Demo.invoice].
Proof.
  intros s outcome.
  refine (proj1 (proj2 (proj2
    (failed_attempt_is_ignored Demo.env Demo.self Demo.invoice Demo.invoice_file
       s outcome.2 outcome.1 _ _))) _ _).
  - reflexivity.
  - vm_compute. reflexivity.
  - reflexivity.
  - vm_compute. reflexivity.
Defined.

(** * Further properties of the module *)

Set Warnings "-clear-no-such-hyp".

Lemma count_events_none (p q : Event → bool) t :
  (∀ e, p e = true → q e = false) →
  forallb p t = true → count_events q t = 0%nat.
Proof.
  intros Hpq. induction t as [|e t IH]; [done|]. simpl.
  intros [He Ht]%andb_prop. rewrite count_events_cons, (Hpq e He). by apply IH.
Qed.

Section StoreFrame.
Context (env : Env).

Lemma _store_frame text doc thumbnail date s r s' :
  _store env text doc thumbnail date s = (r, s') →
  (∀ p, is_Some (files s !! p) → is_Some (files s' !! p))
  ∧ dirs s' = dirs s
  ∧ _ignore s' = _ignore s
  ∧ ∃ t, trace s' = trace s ++ t ∧ forallb is_store_event t = true.
Proof.
  unfold _store. intros H. run_in H; simpl;
    (split_and!;
      [ intros p Hp; rewrite ?lookup_insert_is_Some'; auto 10
      | done | done
      | first [ by exists []; rewrite app_nil_r
              | eexists; split; [rewrite <- ?app_assoc; reflexivity | done] ] ]).
Qed.
End StoreFrame.

Ltac skip_counts := split_and!; first [done | unfold count_events; simpl; lia].

Section Effects.
Context (env : Env).

Lemma _store_counts text doc thumbnail date s r s' :
  _store env text doc thumbnail date s = (r, s') →
  ∃ t, trace s' = trace s ++ t
    ∧ count_events is_unlink t = 0%nat
    ∧ count_events is_finished t = 0%nat
    ∧ count_events is_started t = 0%nat
    ∧ count_events is_parser_init t = 0%nat
    ∧ count_events is_cleanup_call t = 0%nat.
Proof.
  intros H. destruct (_store_frame _ _ _ _ _ _ _ _ H) as (_ & _ & _ & t & Ht & Hall).
  exists t. split_and!; [done|..];
    (eapply count_events_none; [|exact Hall]; by intros []).
Qed.

Lemma try_consume_file_effects self file s r s' :
  try_consume_file env self file s = (r, s') →
  (∀ p, (consumed r = true → p ≠ file) →
        is_Some (files s !! p) → is_Some (files s' !! p))
  ∧ dirs s' = dirs s
  ∧ ∃ t, trace s' = trace s ++ t
    ∧ count_events is_unlink t = (if consumed r then 1 else 0)%nat
    ∧ count_events is_finished t = (if consumed r then 1 else 0)%nat
    ∧ count_events is_started t = count_events is_parser_init t
    ∧ (count_events is_parser_init t ≤ 1)%nat
    ∧ ((if consumed r then 1 else 0) ≤ count_events is_parser_init t)%nat
    ∧ count_events is_cleanup_call t
        = (if returned r then count_events is_parser_init t else 0)%nat.
Proof.
  unfold try_consume_file, _cleanup_doc. intros H.
  destruct (title_regex_match env file); simpl in H;
    [|run_in H; split_and!; [done..|]; exists []; rewrite app_nil_r; skip_counts].
  rewrite bind_run, _is_duplicate_run in H.
  destruct (files s !! file) as [f|] eqn:Hf;
    [|simplify_eq; split_and!; [done..|]; exists []; rewrite app_nil_r; skip_counts].
  destruct (checksum_exists _ s);
    [run_in H; split_and!; [done..|]; eexists; skip_counts|].
  rewrite bind_run, _get_parser_class_run in H.
  destruct (selection _) as [pc|];
    [|run_in H; split_and!; [done..|]; eexists; simpl; rewrite <- ?app_assoc; skip_counts].
  run_in H;
    try match goal with
    | Hs : _store _ _ _ _ _ _ = _ |- _ =>
        destruct (_store_frame _ _ _ _ _ _ _ _ Hs) as (Hfiles & Hdirs & _ & _);
        destruct (_store_counts _ _ _ _ _ _ _ Hs)
          as (ts & Hts & Hc1 & Hc2 & Hc3 & Hc4 & Hc5);
        simpl in Hfiles, Hdirs, Hts
    end;
    try (exfalso;
         match goal with
         | Hnone : files _ !! file = None |- _ =>
             destruct (Hfiles file) as [? ?]; [by rewrite Hf|congruence]
         end);
    simpl;
    (split_and!;
      [ try done;
        intros q Hq Hsome; rewrite ?lookup_delete_is_Some;
        try (split; [intros ->; by apply Hq|]); auto
      | done
      | eexists; split;
          [ rewrite ?Hts;
            repeat first [rewrite <- app_assoc | progress simpl]; reflexivity
          | repeat first [rewrite count_events_app | rewrite count_events_cons];
            rewrite ?Hc1, ?Hc2, ?Hc3, ?Hc4, ?Hc5; skip_counts ] ]).
Qed.
End Effects.

Section Invariant.
Context (env : Env).

(** What an attempt does to the Document table, whatever its outcome. *)
Lemma try_consume_file_documents self file s r s' :
  try_consume_file env self file s = (r, s') →
  (documents s' = documents s ∧ consumed r = false)
  ∨ ∃ f d,
      files s !! file = Some f
      ∧ checksum_exists (md5_hexdigest env (f_content f)) s = false
      ∧ documents s' = documents s ++ [d]
      ∧ Document.checksum d = md5_hexdigest env (f_content f).
Proof.
  unfold try_consume_file, _cleanup_doc. intros H.
  destruct (title_regex_match env file); simpl in H; [|run_in H; by left].
  rewrite bind_run, _is_duplicate_run in H.
  destruct (files s !! file) as [f|] eqn:Hf; [|simplify_eq; by left].
  destruct (checksum_exists _ s) eqn:Hdup; [run_in H; by left|].
  rewrite bind_run, _get_parser_class_run in H.
  destruct (selection _) as [pc|]; [|run_in H; by left].
  run_in H; try (by left);
    lazymatch goal with
    | Hs : _store _ _ _ _ _ _ = (Ok _, _) |- _ =>
        destruct (_store_Ok _ _ _ _ _ _ _ _ Hs)
          as (fi & f' & _ & Hf' & Hdocs & Hsum & _);
        simpl in Hf', Hdocs; simplify_eq; right; exists f; eexists;
        simpl; rewrite Hdocs; by split_and!
    | Hs : _store _ _ _ _ _ _ = (Raise _, _) |- _ =>
        destruct (_store_Raise _ _ _ _ _ _ _ _ Hs)
          as (_ & _ & _ & [[Hdocs _]|(f' & d' & Hf' & Hdocs & Hsum)]);
        simpl in Hdocs; simplify_eq;
        [ left; simpl; by rewrite ?Hdocs
        | right; exists f, d'; simpl in *; simplify_eq; rewrite ?Hdocs;
          by split_and! ]
    end.
Qed.

Lemma checksums_NoDup_snoc (ds : list Document.t) d s :
  documents s = ds →
  checksum_exists (Document.checksum d) s = false →
  NoDup (Document.checksum <$> ds) →
  NoDup (Document.checksum <$> (ds ++ [d])).
Proof.
  intros <- Hnot Hnodup. rewrite fmap_app. apply NoDup_app. split_and!; [done| |].
  - intros c Hc [->|Hin%elem_of_nil]%elem_of_cons; [|done].
    apply list_elem_of_fmap in Hc as (d' & Hd' & Hin).
    assert (checksum_exists (Document.checksum d) s = true); [|congruence].
    apply checksum_exists_true. eauto.
  - apply NoDup_singleton.
Qed.

Lemma try_consume_file_checksums self file s r s' :
  try_consume_file env self file s = (r, s') →
  NoDup (Document.checksum <$> documents s) →
  NoDup (Document.checksum <$> documents s').
Proof.
  intros H Hnodup.
  destruct (try_consume_file_documents _ _ _ _ _ H)
    as [[-> _]|(f & d & Hf & Hdup & -> & Hsum)]; [done|].
  eapply checksums_NoDup_snoc; [done| |done]. by rewrite Hsum.
Qed.

Lemma consume_entry_inv self file mtime s r s' :
  consume_entry env self (file, mtime) s = (r, s') →
  (s' = s ∧ returned r = true)
  ∨ (r = Raise (FileNotFoundError file) ∧ s' = s)
  ∨ ∃ b s1, try_consume_file env self file s = (b, s1)
      ∧ documents s' = documents s1 ∧ files s' = files s1 ∧ trace s' = trace s1
      ∧ dirs s' = dirs s1
      ∧ match b with
        | Ok true => r = Ok tt ∧ _ignore s' = _ignore s1
        | Ok false => r = Ok tt ∧ _ignore s' = _ignore s1 ++ [file]
        | Raise e => r = Raise e ∧ _ignore s' = _ignore s1
        end.
Proof.
  unfold consume_entry. intros H.
  rewrite bind_run, getmtime_run in H.
  destruct (files s !! file) as [f|]; [|simplify_eq; auto].
  destruct (decide (mtime = f_mtime f)); [|run_in H; auto].
  rewrite bind_run in H.
  destruct (try_consume_file env self file s) as [[[]|e'] s1] eqn:Htry;
    run_in H; right; right; do 2 eexists; by split_and!.
Qed.

Lemma consume_entries_checksums self entries s r s' :
  consume_entries env self entries s = (r, s') →
  NoDup (Document.checksum <$> documents s) →
  NoDup (Document.checksum <$> documents s').
Proof.
  revert s. induction entries as [|[file mtime] entries IH]; intros s H Hnodup.
  - by run_in H.
  - rewrite consume_entries_cons in H.
    destruct (consume_entry env self (file, mtime) s) as [r1 s1] eqn:Hentry.
    assert (NoDup (Document.checksum <$> documents s1)) as Hnodup1.
    { destruct (consume_entry_inv _ _ _ _ _ _ Hentry)
        as [[-> _]|[[_ ->]|(b & s2 & Htry & -> & _)]]; [done..|].
      by eapply try_consume_file_checksums. }
    destruct r1; simplify_eq; eauto.
Qed.

(** X8.  If no two Documents share a checksum before a pass, none do after
    it, whatever its outcome: of files with the same bytes at most one is
    stored. *)
Theorem pass_keeps_checksums_unique :
  ∀ (self : Consumer) (s s' : State) (r : Result unit),
    consume_new_files env self s = (r, s') →
    NoDup (Document.checksum <$> documents s) →
    NoDup (Document.checksum <$> documents s').
Proof.
  intros self s s' r H Hnodup. unfold consume_new_files in H.
  rewrite bind_run in H.
  destruct (scan self s) as [[scanned|e] s1] eqn:Hscan.
  - destruct (scan_NoDup _ _ _ _ Hscan) as [_ ->].
    destruct scanned as [|entry scanned]; [by run_in H|].
    rewrite bind_run in H. unfold sleep in H. run_in H.
    by eapply consume_entries_checksums in H.
  - unfold scan, scandir in Hscan. by run_in Hscan.
Qed.
End Invariant.

Section SortedOrder.
Context {A : Type} (key : A → Z).


End SortedOrder.


Section PassFacts.
Context (env : Env).

(** What the scan returns: the files of the directory that are not ignored,
    each once, with the modification time they have. *)
Lemma scan_spec self s scanned s' :
  scan self s = (Ok scanned, s') →
  s' = s
  ∧ NoDup (scanned.*1)
  ∧ ∀ p m, (p, m) ∈ scanned ↔
      ∃ f, files s !! p = Some f ∧ p.1 = consume self ∧ (p ∉ _ignore s)
           ∧ m = f_mtime f.
Proof.
  intros H. destruct (scan_NoDup _ _ _ _ H) as [Hnodup ->].
  split_and!; [done..|]. unfold scan, scandir in H. run_in H.
  intros p m. rewrite list_elem_of_fmap. split.
  - intros ([p' f] & [= -> ->] & Hin). simpl in *.
    apply list_elem_of_filter in Hin as [Hign Hin].
    apply list_elem_of_filter in Hin as [Hdir Hin].
    apply elem_of_map_to_list in Hin. by exists f.
  - intros (f & Hf & Hdir & Hign & ->). exists (p, f). split; [done|].
    apply list_elem_of_filter. split; [done|].
    apply list_elem_of_filter. split; [done|].
    by apply elem_of_map_to_list.
Qed.

Lemma scan_run self s :
  scan self s =
    if decide (consume self ∈ dirs s)
    then (Ok ((λ e : Path * File, (e.1, f_mtime e.2)) <$>
                filter (λ e : Path * File, e.1 ∉ _ignore s)
                  (filter (λ e : Path * File, e.1.1 = consume self)
                     (map_to_list (files s)))), s)
    else (Raise (FileNotFoundError (consume self, "")), s).
Proof.
  unfold scan, scandir. rewrite !bind_run. simpl.
  by destruct (decide (consume self ∈ dirs s)).
Qed.

(** X2.  A pass over a directory in which every file is on the ignore list
    (or that is empty) returns at once: it does not sleep and leaves the
    whole state as it was. *)
Theorem pass_without_candidates_does_nothing :
  ∀ (self : Consumer) (s : State),
    consume self ∈ dirs s →
    (∀ p, is_Some (files s !! p) → p.1 = consume self → p ∈ _ignore s) →
    consume_new_files env self s = (Ok tt, s).
Proof.
  intros self s Hdir Hall. unfold consume_new_files.
  rewrite bind_run.
  destruct (scan self s) as [[scanned|e] s1] eqn:Hscan.
  - destruct (scan_spec _ _ _ _ Hscan) as (-> & _ & Hspec).
    destruct scanned as [|[p m] scanned]; [done|].
    destruct (proj1 (Hspec p m)) as (f & Hf & Hp & Hign & _); [by left|].
    destruct Hign. apply Hall; [by rewrite Hf|done].
  - rewrite scan_run, decide_True in Hscan by done. done.
Qed.

End PassFacts.


Section PassFacts2.
Context (env : Env).



End PassFacts2.

Section AttemptFacts.
Context (env : Env).

(** X12.  An attempt that returns has deleted no file other than its own
    source, and has deleted that one exactly when it returns True: when it
    returns False, whatever the reason, nothing was unlinked and the source
    is still there. *)
Theorem attempt_deletes_only_consumed_source :
  ∀ (self : Consumer) (file : Path) (s s' : State) (b : bool),
    try_consume_file env self file s = (Ok b, s') →
    (∀ p, p ≠ file → is_Some (files s !! p) → is_Some (files s' !! p))
    ∧ (b = false → is_Some (files s !! file) → is_Some (files s' !! file))
    ∧ ∃ t, trace s' = trace s ++ t
         ∧ count_events is_unlink t = (if b then 1 else 0)%nat.
Proof.
  intros self file s s' b H.
  destruct (try_consume_file_effects _ _ _ _ _ _ H)
    as (Hfiles & _ & t & Ht & Hunlink & _).
  split_and!.
  - intros p Hp. apply Hfiles. by intros _.
  - intros ->. apply Hfiles. by intros.
  - exists t. split; [done|]. by destruct b.
Qed.

(** X13.  An attempt that returns True has sent one started and one
    finished notification; an attempt that returns False has sent no
    finished notification and at most one started notification. *)
Theorem notifications_match_outcome :
  ∀ (self : Consumer) (file : Path) (s s' : State) (b : bool),
    try_consume_file env self file s = (Ok b, s') →
    ∃ t, trace s' = trace s ++ t
      ∧ count_events is_finished t = (if b then 1 else 0)%nat
      ∧ (b = true → count_events is_started t = 1%nat)
      ∧ (count_events is_started t ≤ 1)%nat.
Proof.
  intros self file s s' b H.
  destruct (try_consume_file_effects _ _ _ _ _ _ H)
    as (_ & _ & t & Ht & _ & Hfin & Hstart & Hle & Hge & _).
  exists t. destruct b; simpl in *; split_and!; try done; lia.
Qed.

(** X14.  An attempt that returns (True or False) has instantiated at most
    one parser and has called the cleanup of the parser once for each
    instantiation.  An attempt whose store step raises something other than
    a parse error raises it in turn, and the parser it had instantiated is
    not cleaned up. *)
Theorem cleanup_once_unless_store_raises :
  ∀ (self : Consumer) (file : Path) (s s' : State) (r : Result bool),
    try_consume_file env self file s = (r, s') →
    (∀ b, r = Ok b →
       ∃ t, trace s' = trace s ++ t
         ∧ (count_events is_parser_init t ≤ 1)%nat
         ∧ count_events is_cleanup_call t = count_events is_parser_init t)
    ∧ (∀ f pc thumbnail date text e s2,
         title_regex_match env file = true →
         files s !! file = Some f →
         checksum_exists (md5_hexdigest env (f_content f)) s = false →
         selection ((λ p, p file) <$> parsers self) = Some pc →
         extraction pc file = Ok (thumbnail, date, text) →
         _store env text file thumbnail date (state_at_store self pc file s)
           = (Raise e, s2) →
         is_ParseError e = false →
         r = Raise e
         ∧ ∃ t, trace s' = trace s ++ t
             ∧ count_events is_parser_init t = 1%nat
             ∧ count_events is_cleanup_call t = 0%nat).
Proof.
  intros self file s s' r H. split.
  - intros b ->.
    destruct (try_consume_file_effects _ _ _ _ _ _ H)
      as (_ & _ & t & Ht & _ & _ & _ & Hle & _ & Hclean).
    by exists t.
  - intros f pc thumbnail date text e s2 Hmatch Hf Hdup Hsel Hext Hstore He.
    pose proof (try_consume_file_reaches_store env self file f pc thumbnail date
                  text s Hmatch Hf Hdup Hsel Hext e s2 Hstore He) as Hraise.
    rewrite Hraise in H. simplify_eq. split; [done|].
    destruct (_store_counts _ _ _ _ _ _ _ _ Hstore)
      as (ts & Hts & _ & _ & _ & Hinit & Hclean).
    simpl in Hts. rewrite <- app_assoc in Hts.
    eexists. split; [exact Hts|].
    rewrite !count_events_app, Hinit, Hclean. split; reflexivity.
Qed.

(** X18.  The [try] of the attempt covers the store step: when the store
    step raises a parse error, the attempt handles it like one raised by an
    extraction call.  It logs the failure with its cause, calls the cleanup
    of the parser and returns False; the source file is not unlinked, and
    the files and the Document table are as the store step left them. *)
Theorem store_parse_error_is_handled :
  ∀ (self : Consumer) (file : Path) (f : File) (pc : ParserClass)
    (thumbnail : Path) (date : option Z) (text msg : string) (s s2 : State),
    title_regex_match env file = true →
    files s !! file = Some f →
    checksum_exists (md5_hexdigest env (f_content f)) s = false →
    selection ((λ p, p file) <$> parsers self) = Some pc →
    extraction pc file = Ok (thumbnail, date, text) →
    _store env text file thumbnail date (state_at_store self pc file s)
      = (Raise (ParseError msg), s2) →
    ∃ s',
      try_consume_file env self file s = (Ok false, s')
      ∧ documents s' = documents s2
      ∧ files s' = files s2
      ∧ is_Some (files s' !! file)
      ∧ trace s' = trace s2
          ++ [EvLog Error (logging_group s2) (MsgParseFailure file msg);
              EvParser (parser_name pc) OpCleanup file].
Proof.
  intros self file f pc thumbnail date text msg s s2
    Hmatch Hf Hdup Hsel Hext Hstore.
  destruct (_store_frame _ _ _ _ _ _ _ _ Hstore) as (Hfiles & _).
  destruct (Hfiles file) as [f2 Hf2]; [simpl; by rewrite Hf|].
  unfold try_consume_file. rewrite Hmatch. simpl.
  rewrite bind_run, _is_duplicate_run, Hf, Hdup.
  rewrite bind_run, _get_parser_class_run, Hsel.
  unfold extraction in Hext.
  destruct (get_thumbnail pc file) as [thumbnail'|e1] eqn:H1; [|done].
  destruct (get_date pc file) as [date'|e2] eqn:H2; [|done].
  destruct (get_text pc file) as [text'|e3] eqn:H3; [|done].
  simplify_eq. rewrite state_at_store_steps in Hstore. run.
  rewrite Hstore. run.
  eexists. split; [reflexivity|]. simpl. rewrite Hf2.
  split_and!; try done. by rewrite <- app_assoc.
Qed.
End AttemptFacts.

Section StoreFacts.
Context (env : Env).

(** X15.  After a file has been consumed, any file that holds the same
    bytes is a duplicate: the duplicate check answers True and the attempt
    on it returns False, creating no Document and touching no file. *)
Theorem consumed_bytes_are_duplicates_afterwards :
  ∀ (self self' : Consumer) (file file' : Path) (f f' : File) (s s' : State),
    try_consume_file env self file s = (Ok true, s') →
    files s !! file = Some f →
    files s' !! file' = Some f' →
    f_content f' = f_content f →
    _is_duplicate env file' s' = (Ok true, s')
    ∧ ∃ s'', try_consume_file env self' file' s' = (Ok false, s'')
        ∧ documents s'' = documents s'
        ∧ files s'' = files s'.
Proof.
  intros self self' file file' f f' s s' H Hf Hf' Hbytes.
  assert (checksum_exists (md5_hexdigest env (f_content f')) s' = true) as Hdup.
  { destruct (try_consume_file_documents _ _ _ _ _ _ H)
      as [[_ ?]|(f0 & d & Hf0 & _ & Hdocs & Hsum)]; [done|].
    simplify_eq. apply checksum_exists_true. exists d.
    rewrite Hdocs, Hbytes. split; [set_solver|done]. }
  split; [by rewrite _is_duplicate_run, Hf', Hdup|].
  unfold try_consume_file.
  destruct (title_regex_match env file'); simpl; [|by exists s'].
  rewrite bind_run, _is_duplicate_run, Hf', Hdup. run. by eexists.
Qed.

(** X16.  When the paths of the two artifacts differ from each other, from
    the source and from the thumbnail, a store step that returns has left at
    the content path the encryption of the source bytes, at the thumbnail
    path the encryption of the thumbnail bytes, and every other file as it
    was. *)
Theorem store_writes_encrypted_copies :
  ∀ (text : string) (doc thumbnail : Path) (date : option Z)
    (s s' : State) (d : Document.t) (f ft : File),
    _store env text doc thumbnail date s = (Ok d, s') →
    files s !! doc = Some f →
    files s !! thumbnail = Some ft →
    source_path env d ≠ doc →
    source_path env d ≠ thumbnail →
    thumbnail_path env d ≠ thumbnail →
    source_path env d ≠ thumbnail_path env d →
    ∃ c1 c2,
      encrypted env (f_content f) = Ok c1
      ∧ encrypted env (f_content ft) = Ok c2
      ∧ files s' !! source_path env d
          = Some {| f_content := c1; f_mtime := now s |}
      ∧ files s' !! thumbnail_path env d
          = Some {| f_content := c2; f_mtime := now s |}
      ∧ ∀ p, p ≠ source_path env d → p ≠ thumbnail_path env d →
             files s' !! p = files s !! p.
Proof.
  intros text doc thumbnail date s s' d f ft H Hf Hft Hsd Hst Htt Hsp.
  unfold _store in H. run_in H;
    repeat match goal with
    | Hl : <[_:=_]> _ !! _ = Some _ |- _ =>
        rewrite lookup_insert_ne in Hl by done
    end;
    simplify_eq; do 2 eexists; simpl;
    (split_and!; [eassumption|eassumption|..]);
    first
      [ by rewrite !(lookup_insert_ne _ (thumbnail_path env _)), lookup_insert_eq
      | by rewrite lookup_insert_eq
      | intros p Hp1 Hp2; by rewrite !lookup_insert_ne ].
Qed.

(** X17.  A store step that returns has attached to the new Document every
    tag matched in the text and every tag of the file name; when there are
    none it leaves the tag table alone; the tags of other Documents are
    never changed. *)
Theorem store_attaches_union_of_tags :
  ∀ (text : string) (doc thumbnail : Path) (date : option Z)
    (s s' : State) (d : Document.t) (fi : FileInfo.t),
    _store env text doc thumbnail date s = (Ok d, s') →
    from_path env doc = Ok fi →
    (∀ t, t ∈ match_all env text ∨ t ∈ FileInfo.tags fi →
          ∃ ts, document_tags s' !! Document.pk d = Some ts ∧ t ∈ ts)
    ∧ (match_all env text = [] → FileInfo.tags fi = [] →
         document_tags s' = document_tags s)
    ∧ (∀ pk, pk ≠ Document.pk d →
         document_tags s' !! pk = document_tags s !! pk).
Proof.
  intros text doc thumbnail date s s' d fi H Hfi.
  unfold _store in H. rewrite bind_run, lift_run, Hfi in H.
  run_in H; simpl; split_and!.
  all: try done.
  all: try (intros pk Hpk; by rewrite lookup_insert_ne).
  all: try (intros Hm Ht;
            match goal with Hne : list_to_set _ ≠ ∅ |- _ => destruct Hne end;
            by rewrite Hm, Ht).
  all: intros t Ht.
  all: first
    [ eexists; rewrite lookup_insert_eq; split; [done|];
      apply elem_of_union_l, elem_of_list_to_set, elem_of_app; tauto
    | exfalso;
      assert (t ∈ (list_to_set (match_all env text ++ FileInfo.tags fi) : gset Tag))
        as Hin by (apply elem_of_list_to_set, elem_of_app; tauto);
      match goal with Hempty : list_to_set _ = ∅ |- _ => rewrite Hempty in Hin end;
      by apply not_elem_of_empty in Hin ].
Qed.
End StoreFacts.

Section PassFrame.
Context (env : Env).

Lemma consume_entries_frame self entries s r s' :
  consume_entries env self entries s = (r, s') →
  documents s `prefix_of` documents s'
  ∧ ∀ p, p ∉ entries.*1 → is_Some (files s !! p) → is_Some (files s' !! p).
Proof.
  revert s. induction entries as [|[file mtime] entries IH]; intros s H.
  - by run_in H.
  - rewrite consume_entries_cons in H.
    destruct (consume_entry env self (file, mtime) s) as [r1 s1] eqn:Hentry.
    assert (documents s `prefix_of` documents s1
            ∧ ∀ p, p ≠ file → is_Some (files s !! p) → is_Some (files s1 !! p))
      as [Hdocs1 Hfiles1].
    { destruct (consume_entry_inv _ _ _ _ _ _ _ Hentry)
        as [[-> _]|[[_ ->]|(b & s2 & Htry & -> & -> & _)]]; [done..|].
      split.
      - destruct (try_consume_file_documents _ _ _ _ _ _ Htry)
          as [[-> _]|(? & d & _ & _ & -> & _)]; [done|by apply prefix_app_r].
      - intros p Hp. destruct (try_consume_file_effects _ _ _ _ _ _ Htry) as [Hfiles _].
        apply Hfiles. by intros _. }
    assert (∀ p, p ∉ ((file, mtime) :: entries).*1 → p ≠ file ∧ p ∉ entries.*1)
      as Hsplit.
    { intros p Hp. rewrite fmap_cons in Hp. simpl in Hp.
      apply not_elem_of_cons in Hp. done. }
    destruct r1 as [[]|e].
    + destruct (IH _ H) as [Hdocs Hfiles]. split; [by etrans|].
      intros p [Hp1 Hp2]%Hsplit Hsome. auto.
    + simplify_eq. split; [done|]. intros p [Hp1 Hp2]%Hsplit. auto.
Qed.

(** X7.  A pass, whatever its outcome, only appends to the Document table:
    the rows that were there are still there, unchanged and in order. *)
Theorem pass_keeps_existing_documents :
  ∀ (self : Consumer) (s s' : State) (r : Result unit),
    consume_new_files env self s = (r, s') →
    documents s `prefix_of` documents s'.
Proof.
  intros self s s' r H.
  destruct (scan self s) as [[scanned|e] s1] eqn:Hscan.
  - destruct (scan_spec _ _ _ _ Hscan) as (-> & _ & _).
    destruct (decide (scanned = [])) as [->|Hne].
    { unfold consume_new_files in H. rewrite bind_run, Hscan in H. by run_in H. }
    rewrite (consume_new_files_run env self s scanned s Hscan Hne) in H.
    by destruct (consume_entries_frame _ _ _ _ _ H) as [Hdocs _].
  - unfold consume_new_files in H. rewrite bind_run, Hscan in H. simplify_eq.
    rewrite scan_run in Hscan. by run_in Hscan.
Qed.


(** X4.  When a scanned file is gone by the time its turn comes, reading its
    modification time raises [FileNotFoundError]: the pass raises it, in the
    state reached so far, and the entries behind it are not processed. *)
Theorem vanished_file_aborts_pass :
  ∀ (self : Consumer) (s_init s_scan s : State)
    (scanned pre post : list (Path * Z)) (file : Path) (mtime : Z),
    scan self s_init = (Ok scanned, s_scan) →
    sorted snd false scanned = pre ++ (file, mtime) :: post →
    consume_entries env self pre
      (sleep env FILES_MIN_UNMODIFIED_DURATION s_scan).2 = (Ok tt, s) →
    files s !! file = None →
    consume_new_files env self s_init = (Raise (FileNotFoundError file), s).
Proof.
  intros self s_init s_scan s scanned pre post file mtime Hscan Hsorted Hpre Hf.
  rewrite (consume_new_files_run _ _ _ _ _ Hscan).
  - rewrite Hsorted, consume_entries_app, Hpre, consume_entries_cons.
    unfold consume_entry. by rewrite bind_run, getmtime_run, Hf.
  - intros ->. by destruct pre.
Qed.

(** X10.  A file whose name does not match the title pattern is refused
    (False) with no effect at all, without the file being read.  A matching
    file that is no duplicate and that every parser declines is refused
    (False) with two log lines as the only effect: the empty list of
    available parsers, and the error that no parser was found. *)
Theorem structural_skips_only_log :
  ∀ (self : Consumer) (file : Path) (s : State) (t : list Event),
    (title_regex_match env file = false ∧ t = [])
    ∨ (title_regex_match env file = true
       ∧ (∃ f, files s !! file = Some f
               ∧ checksum_exists (md5_hexdigest env (f_content f)) s = false)
       ∧ (∀ p, p ∈ parsers self → p file = None)
       ∧ t = [EvLog Info (logging_group s) (MsgParsersAvailable []);
              EvLog Error (logging_group s) (MsgNoParsers file)]) →
    try_consume_file env self file s = (Ok false, set_trace (λ tr, tr ++ t) s).
Proof.
  intros self file s t [[Hmatch ->]|(Hmatch & (f & Hf & Hdup) & Hnone & ->)].
  - unfold try_consume_file. rewrite Hmatch. simpl. rewrite mret_run. f_equal.
    apply State_eq; try done. simpl. by rewrite app_nil_r.
  - unfold try_consume_file. rewrite Hmatch. simpl.
    rewrite bind_run, _is_duplicate_run, Hf, Hdup.
    rewrite bind_run, _get_parser_class_run.
    unfold selection. rewrite omap_id_fmap, (omap_all_None _ _ Hnone). run.
    f_equal. apply State_eq; try done. simpl. by rewrite <- app_assoc.
Qed.
End PassFrame.

(** ** The further properties at work on the concrete installation *)

(** On the concrete installation: a regular file that has a listed name is
    passed over and nothing is made; a name below missing directories is
    made together with them; a name below a regular file is an error that
    [make_dirs] lets through, and the names after it are not looked at. *)
Lemma make_dirs_on_files_and_ancestors :
  make_dirs Demo.env ["/consume/invoice.pdf"] Demo.initial = (Ok tt, Demo.initial)
  ∧ (let made := (make_dirs Demo.env ["/a/b/c"] Demo.initial).2 in
     os_path_exists Demo.env (files Demo.initial) (dirs Demo.initial) "/a/b" = false
     ∧ os_path_exists Demo.env (files made) (dirs made) "/a/b" = true
     ∧ os_path_exists Demo.env (files made) (dirs made) "/a/b/c/" = true)
  ∧ (let outcome :=
       make_dirs Demo.env ["/consume/invoice.pdf/x"; "/a"] Demo.initial in
     outcome.1 = Raise (OtherError "NotADirectoryError")
     ∧ os_path_exists Demo.env (files outcome.2) (dirs outcome.2) "/a" = false).
Proof. split_and!; by vm_compute. Qed.


Lemma pass_without_candidates_does_nothing_witness :
  consume_new_files Demo.env Demo.self Demo.initial_ignored
    = (Ok tt, Demo.initial_ignored).
Proof.
  apply (pass_without_candidates_does_nothing Demo.env Demo.self Demo.initial_ignored).
  - apply (bool_decide_unpack _). by vm_compute.
  - intros p Hp Hdir. simpl.
    destruct (decide (p = Demo.invoice)) as [->|Hne]; [by left|].
    exfalso. simpl in Hp. unfold Demo.invoice in *.
    rewrite lookup_insert_ne in Hp by done.
    destruct (decide (p = Demo.thumb)) as [->|Hne'].
    + by simpl in Hdir.
    + unfold Demo.thumb in *. rewrite lookup_singleton_ne in Hp by done.
      by destruct Hp.
Defined.



Lemma pass_keeps_checksums_unique_witness :
  NoDup (Document.checksum <$>
           documents (consume_new_files Demo.env Demo.self Demo.initial_copy).2).
Proof.
  apply (pass_keeps_checksums_unique Demo.env Demo.self Demo.initial_copy
           (consume_new_files Demo.env Demo.self Demo.initial_copy).2
           (consume_new_files Demo.env Demo.self Demo.initial_copy).1).
  - vm_compute. reflexivity.
  - simpl. apply NoDup_nil_2.
Defined.

Lemma attempt_deletes_only_consumed_source_witness :
  let s := Demo.initial in
  let outcome := try_consume_file Demo.env Demo.self_broken Demo.invoice s in
  (∀ p, p ≠ Demo.invoice → is_Some (files s !! p) → is_Some (files outcome.2 !! p))
  ∧ (false = false →
     is_Some (files s !! Demo.invoice) → is_Some (files outcome.2 !! Demo.invoice))
  ∧ ∃ t, trace outcome.2 = trace s ++ t ∧ count_events is_unlink t = 0%nat.
Proof.
  intros s outcome.
  apply (attempt_deletes_only_consumed_source Demo.env Demo.self_broken
           Demo.invoice s outcome.2 false).
  vm_compute. reflexivity.
Defined.

Lemma notifications_match_outcome_witness :
  let s := Demo.initial in
  let outcome := try_consume_file Demo.env Demo.self Demo.invoice s in
  ∃ t, trace outcome.2 = trace s ++ t
    ∧ count_events is_finished t = 1%nat
    ∧ (true = true → count_events is_started t = 1%nat)
    ∧ (count_events is_started t ≤ 1)%nat.
Proof.
  intros s outcome.
  apply (notifications_match_outcome Demo.env Demo.self Demo.invoice s
           outcome.2 true).
  vm_compute. reflexivity.
Defined.

Lemma cleanup_once_unless_store_raises_witness :
  let s := Demo.initial in
  let outcome := try_consume_file Demo.env_gpg_down Demo.self Demo.invoice s in
  outcome.1 = Raise (OtherError "GPGError")
  ∧ ∃ t, trace outcome.2 = trace s ++ t
      ∧ count_events is_parser_init t = 1%nat
      ∧ count_events is_cleanup_call t = 0%nat.
Proof.
  intros s outcome.
  refine (proj2 (cleanup_once_unless_store_raises Demo.env_gpg_down Demo.self
                   Demo.invoice s outcome.2 outcome.1 _)
            Demo.invoice_file Demo.pdf_parser Demo.thumb None "lorem ipsum"
            (OtherError "GPGError")
            (_store Demo.env_gpg_down "lorem ipsum" Demo.invoice Demo.thumb None
               (state_at_store Demo.self Demo.pdf_parser Demo.invoice s)).2
            _ _ _ _ _ _ _).
  - vm_compute. reflexivity.
  - reflexivity.
  - reflexivity.
  - reflexivity.
  - reflexivity.
  - reflexivity.
  - vm_compute. reflexivity.
  - reflexivity.
Defined.

Lemma store_parse_error_is_handled_witness :
  let s := Demo.initial in
  let s2 :=
    (_store Demo.env_bad_name "lorem ipsum" Demo.invoice Demo.thumb None
       (state_at_store Demo.self Demo.pdf_parser Demo.invoice s)).2 in
  ∃ s',
    try_consume_file Demo.env_bad_name Demo.self Demo.invoice s = (Ok false, s')
    ∧ documents s' = documents s2
    ∧ files s' = files s2
    ∧ is_Some (files s' !! Demo.invoice)
    ∧ trace s' = trace s2
        ++ [EvLog Error (logging_group s2)
              (MsgParseFailure Demo.invoice "unable to parse the file name");
            EvParser (parser_name Demo.pdf_parser) OpCleanup Demo.invoice].
Proof.
  intros s s2.
  apply (store_parse_error_is_handled Demo.env_bad_name Demo.self Demo.invoice
           Demo.invoice_file Demo.pdf_parser Demo.thumb None "lorem ipsum"
           "unable to parse the file name" s s2).
  - reflexivity.
  - reflexivity.
  - reflexivity.
  - reflexivity.
  - reflexivity.
  - vm_compute. reflexivity.
Defined.

Lemma consumed_bytes_are_duplicates_afterwards_witness :
  let s' := (try_consume_file Demo.env Demo.self Demo.invoice Demo.initial_copy).2 in
  _is_duplicate Demo.env Demo.copy s' = (Ok true, s')
  ∧ ∃ s'', try_consume_file Demo.env Demo.self Demo.copy s' = (Ok false, s'')
      ∧ documents s'' = documents s'
      ∧ files s'' = files s'.
Proof.
  intros s'.
  apply (consumed_bytes_are_duplicates_afterwards Demo.env Demo.self Demo.self
           Demo.invoice Demo.copy Demo.invoice_file Demo.invoice_file
           Demo.initial_copy s').
  - vm_compute. reflexivity.
  - reflexivity.
  - vm_compute. reflexivity.
  - reflexivity.
Defined.

Lemma store_writes_encrypted_copies_witness :
  let s := Demo.initial in
  let s' := (_store Demo.env "lorem ipsum" Demo.invoice Demo.thumb None s).2 in
  let d := Demo.stored_invoice in
  ∃ c1 c2,
    encrypted Demo.env (f_content Demo.invoice_file) = Ok c1
    ∧ encrypted Demo.env [x74] = Ok c2
    ∧ files s' !! source_path Demo.env d
        = Some {| f_content := c1; f_mtime := now s |}
    ∧ files s' !! thumbnail_path Demo.env d
        = Some {| f_content := c2; f_mtime := now s |}
    ∧ ∀ p, p ≠ source_path Demo.env d → p ≠ thumbnail_path Demo.env d →
           files s' !! p = files s !! p.
Proof.
  intros s s' d.
  apply (store_writes_encrypted_copies Demo.env "lorem ipsum" Demo.invoice
           Demo.thumb None s s' d Demo.invoice_file
           {| f_content := [x74]; f_mtime := 11 |}).
  - vm_compute. reflexivity.
  - reflexivity.
  - reflexivity.
  - vm_compute. congruence.
  - vm_compute. congruence.
  - vm_compute. congruence.
  - vm_compute. congruence.
Defined.

Lemma store_attaches_union_of_tags_witness :
  let s := Demo.initial in
  let s' := (_store Demo.env_tagged "lorem ipsum" Demo.invoice Demo.thumb None s).2 in
  let d := Demo.stored_invoice in
  let fi := FileInfo.mk None None "invoice.pdf" "pdf" ["acme"; "2017"] in
  (∀ t, t ∈ match_all Demo.env_tagged "lorem ipsum" ∨ t ∈ FileInfo.tags fi →
        ∃ ts, document_tags s' !! Document.pk d = Some ts ∧ t ∈ ts)
  ∧ (match_all Demo.env_tagged "lorem ipsum" = [] → FileInfo.tags fi = [] →
       document_tags s' = document_tags s)
  ∧ (∀ pk, pk ≠ Document.pk d →
       document_tags s' !! pk = document_tags s !! pk).
Proof.
  intros s s' d fi.
  apply (store_attaches_union_of_tags Demo.env_tagged "lorem ipsum" Demo.invoice
           Demo.thumb None s s' d fi).
  - vm_compute. reflexivity.
  - reflexivity.
Defined.

Lemma pass_keeps_existing_documents_witness :
  let s := set_files (insert Demo.letter Demo.letter_file) Demo.initial_seen in
  documents s `prefix_of` documents (consume_new_files Demo.env Demo.self s).2.
Proof.
  intros s.
  apply (pass_keeps_existing_documents Demo.env Demo.self s
           (consume_new_files Demo.env Demo.self s).2
           (consume_new_files Demo.env Demo.self s).1).
  vm_compute. reflexivity.
Defined.


Lemma vanished_file_aborts_pass_witness :
  let s := (sleep Demo.env_taken_away FILES_MIN_UNMODIFIED_DURATION
              Demo.initial_two).2 in
  consume_new_files Demo.env_taken_away Demo.self Demo.initial_two
    = (Raise (FileNotFoundError Demo.invoice), s).
Proof.
  intros s.
  apply (vanished_file_aborts_pass Demo.env_taken_away Demo.self Demo.initial_two
           Demo.initial_two s [(Demo.invoice, 10); (Demo.letter, 12)] []
           [(Demo.letter, 12)] Demo.invoice 10).
  - vm_compute. reflexivity.
  - reflexivity.
  - reflexivity.
  - vm_compute. reflexivity.
Defined.

Lemma structural_skips_only_log_witness :
  let s := Demo.initial in
  try_consume_file Demo.env Demo.self_declining Demo.invoice s =
    (Ok false,
     set_trace (λ tr, tr ++
       [EvLog Info (logging_group s) (MsgParsersAvailable []);
        EvLog Error (logging_group s) (MsgNoParsers Demo.invoice)]) s).
Proof.
  intros s.
  apply (structural_skips_only_log Demo.env Demo.self_declining Demo.invoice s).
  right. split_and!; [done| |by intros p ->%list_elem_of_singleton|done].
  exists Demo.invoice_file. by split.
Defined.
